(** * Scroll-driven camera poses: a shallow embedding of [scrollTimeline.js]

    The development follows [src/viewer/scrollTimeline.js] (poses,
    [applyPose], [setupScrollTimeline]) and the [applyTarget] closure of
    [src/main.js].

    Conventions of the embedding.
    - A JavaScript number is an exact rational ([Q]); equality of numbers is
      [Qeq].  Rounding of IEEE doubles and of the animation library is outside
      the model.
    - The objects the code mutates (camera rig, camera, orbit controls, target
      proxy) are the fields of one record, [World], threaded explicitly.
    - Calls into collaborators whose effect is not a plain field write
      ([camera.updateProjectionMatrix], [controls.update], [camera.lookAt],
      [console.*]) are appended to the trace [calls] of the world. *)

From Stdlib Require Import QArith Qminmax Lqa List Bool String.
From Stdlib Require Import PeanoNat Lia Qabs Qround ZArith.
Import ListNotations.
Open Scope Q_scope.

(** ** Data *)

(** [{x, y, z}] objects: pose vectors, [Vector3], [Euler], the target proxy. *)
Record Vec3 : Type := vec3 { x : Q; y : Q; z : Q }.

(** A pose object of [POSES].  [camLocalPos] and [fov] are the two fields
    [applyPose] tests before use; [None] is JavaScript's [undefined]. *)
Record Pose : Type := mkPose {
  rigPos : Vec3;
  rigRot : Vec3;
  camLocalPos : option Vec3;
  target : Vec3;
  fov : option Q
}.

(** The module-level object [POSES]; a missing entry is [None]. *)
Record Poses : Type := mkPoses { START : option Pose; END : option Pose }.

Definition START_pose : Pose := {|
  rigPos := vec3 0 0 0;
  rigRot := vec3 0 0.0767 0;
  camLocalPos := Some (vec3 5.980239 1.034926 5.20704);
  target := vec3 (-0.196162) 0.000054 0.208513;
  fov := Some 30
|}.

Definition END_pose : Pose := {|
  rigPos := vec3 0 0 0;
  rigRot := vec3 0 0.0767 0;
  camLocalPos := Some (vec3 (-0.451684) 0.210539 5.422854);
  target := vec3 0.048933 0.014605 0.111806;
  fov := Some 30
|}.

Definition POSES : Poses := {| START := Some START_pose; END := Some END_pose |}.

Record Config : Type := mkConfig {
  PIN_DISTANCE : string;
  SCRUB_SMOOTHING : bool;
  TRIGGER_START : string;
  TRIGGER_END : string;
  DEBUG : bool
}.

Definition CONFIG : Config := {|
  PIN_DISTANCE := "+=200%";
  SCRUB_SMOOTHING := true;
  TRIGGER_START := "top top";
  TRIGGER_END := "+=200%";
  DEBUG := false
|}.

(** ** The mutable world *)

Inductive Level : Type := Log | Warn | Error.

Inductive Message : Type :=
| StartPoseApplied
| EndPoseApplied
| SectionNotFound (selector : string)
| TimelineCreated
| ScrollProgress (progress : Q).

Inductive Call : Type :=
| UpdateProjectionMatrix
| ControlsUpdate
| CameraLookAt (point : Vec3)
| Console (level : Level) (message : Message).

(** What [camera.lookAt] leaves behind: the orientation of the camera is a
    function of the transforms it was computed from and of the point aimed
    at, and is kept here as that data. *)
Record Aim : Type := mkAim {
  aim_rig_position : Vec3;
  aim_rig_rotation : Vec3;
  aim_camera_position : Vec3;
  aim_point : Vec3
}.

Record World : Type := mkWorld {
  rig_position : Vec3;          (* cameraRig.position *)
  rig_rotation : Vec3;          (* cameraRig.rotation *)
  camera_position : Vec3;       (* camera.position, relative to the rig *)
  camera_fov : Q;               (* camera.fov *)
  camera_projection : Q;        (* the fov the projection matrix was built from *)
  camera_aim : option Aim;      (* orientation set by the last camera.lookAt *)
  controls_enabled : bool;      (* controls.enabled *)
  controls_target : Vec3;       (* controls.target *)
  targetProxy : Vec3;           (* the { x, y, z } proxy of main.js *)
  calls : list Call             (* trace of collaborator calls, oldest first *)
}.

Definition set_rig_position (v : Vec3) (w : World) : World :=
  mkWorld v (rig_rotation w) (camera_position w) (camera_fov w)
          (camera_projection w) (camera_aim w) (controls_enabled w)
          (controls_target w) (targetProxy w) (calls w).

Definition set_rig_rotation (v : Vec3) (w : World) : World :=
  mkWorld (rig_position w) v (camera_position w) (camera_fov w)
          (camera_projection w) (camera_aim w) (controls_enabled w)
          (controls_target w) (targetProxy w) (calls w).

Definition set_camera_position (v : Vec3) (w : World) : World :=
  mkWorld (rig_position w) (rig_rotation w) v (camera_fov w)
          (camera_projection w) (camera_aim w) (controls_enabled w)
          (controls_target w) (targetProxy w) (calls w).

Definition set_camera_fov (f : Q) (w : World) : World :=
  mkWorld (rig_position w) (rig_rotation w) (camera_position w) f
          (camera_projection w) (camera_aim w) (controls_enabled w)
          (controls_target w) (targetProxy w) (calls w).

Definition set_controls_enabled (b : bool) (w : World) : World :=
  mkWorld (rig_position w) (rig_rotation w) (camera_position w) (camera_fov w)
          (camera_projection w) (camera_aim w) b
          (controls_target w) (targetProxy w) (calls w).

Definition set_controls_target (v : Vec3) (w : World) : World :=
  mkWorld (rig_position w) (rig_rotation w) (camera_position w) (camera_fov w)
          (camera_projection w) (camera_aim w) (controls_enabled w)
          v (targetProxy w) (calls w).

Definition set_targetProxy (v : Vec3) (w : World) : World :=
  mkWorld (rig_position w) (rig_rotation w) (camera_position w) (camera_fov w)
          (camera_projection w) (camera_aim w) (controls_enabled w)
          (controls_target w) v (calls w).

Definition record_call (c : Call) (w : World) : World :=
  mkWorld (rig_position w) (rig_rotation w) (camera_position w) (camera_fov w)
          (camera_projection w) (camera_aim w) (controls_enabled w)
          (controls_target w) (targetProxy w) (calls w ++ [c]).

(** ** Collaborators *)

(** [camera.updateProjectionMatrix()]: rebuilds the projection from the
    current [camera.fov]. *)
Definition updateProjectionMatrix (w : World) : World :=
  record_call UpdateProjectionMatrix
    (mkWorld (rig_position w) (rig_rotation w) (camera_position w) (camera_fov w)
             (camera_fov w) (camera_aim w) (controls_enabled w)
             (controls_target w) (targetProxy w) (calls w)).

(** [camera.lookAt(px, py, pz)]: orients the camera towards the point, from
    where the rig and the camera stand at the time of the call. *)
Definition camera_lookAt (px py pz : Q) (w : World) : World :=
  record_call (CameraLookAt (vec3 px py pz))
    (mkWorld (rig_position w) (rig_rotation w) (camera_position w) (camera_fov w)
             (camera_projection w)
             (Some (mkAim (rig_position w) (rig_rotation w) (camera_position w)
                          (vec3 px py pz)))
             (controls_enabled w) (controls_target w) (targetProxy w) (calls w)).

(** [controls.update()]: the recompute of the orbit controls; what it does to
    the camera is internal to the controls and is kept as a call. *)
Definition controls_update (w : World) : World := record_call ControlsUpdate w.

Definition console (l : Level) (m : Message) (w : World) : World :=
  record_call (Console l m) w.

(** ** [applyTarget] (main.js) *)

Definition applyTarget (t : Vec3) (w : World) : World :=
  if controls_enabled w then
    controls_update (set_controls_target (vec3 (x t) (y t) (z t)) w)
  else
    camera_lookAt (x t) (y t) (z t) w.

(** ** [applyPose], [applyStartPose], [applyEndPose] (scrollTimeline.js) *)

(** [gsap.set(object, vars)] writes the coordinates of [vars] into [object]
    at once: here the setters of the world.  [Object.assign(targetProxy,
    pose.target)] copies the three coordinates of the target.

    The [applyTarget] argument may be falsy: [None]. *)
Definition TargetApplier : Type := option (Vec3 -> World -> World).

Definition call_applier (f : TargetApplier) (w : World) : World :=
  match f with
  | Some g => g (targetProxy w) w
  | None => w
  end.

Definition applyPose (f : TargetApplier) (pose : option Pose) (w : World) : World :=
  match pose with
  | None => w
  | Some p =>
      let w1 := set_rig_position (rigPos p) w in
      let w2 := set_rig_rotation (rigRot p) w1 in
      let w3 := match camLocalPos p with
                | Some c => set_camera_position c w2
                | None => w2
                end in
      let w4 := match fov p with
                | Some v => updateProjectionMatrix (set_camera_fov v w3)
                | None => w3
                end in
      let w5 := set_targetProxy (target p) w4 in
      call_applier f w5
  end.

Definition applyStartPose (P : Poses) (f : TargetApplier) (w : World) : World :=
  console Log StartPoseApplied (applyPose f (START P) w).

Definition applyEndPose (P : Poses) (f : TargetApplier) (w : World) : World :=
  console Log EndPoseApplied (applyPose f (END P) w).

(** ** The animation timeline (gsap)

    [tl.to(object, { x, y, z, ease: 'none' }, 0)] adds a tween of the three
    coordinates of [object] towards the given values, placed at time 0 of the
    timeline.  All tweens of [setupScrollTimeline] start at 0 and last the
    same default duration, so the ratio of every tween is the progress of the
    timeline.  A tween starts from the values its object holds when the tween
    is set up. *)

Inductive Ease : Type := none.

Definition ease_ratio (e : Ease) (ratio : Q) : Q :=
  match e with none => ratio end.

(** The objects [setupScrollTimeline] animates. *)
Inductive Animated : Type :=
| RigPosition        (* cameraRig.position *)
| RigRotation        (* cameraRig.rotation *)
| CameraPosition     (* camera.position *)
| TargetProxy.       (* targetProxy *)

Definition read (o : Animated) (w : World) : Vec3 :=
  match o with
  | RigPosition => rig_position w
  | RigRotation => rig_rotation w
  | CameraPosition => camera_position w
  | TargetProxy => targetProxy w
  end.

Definition write (o : Animated) (v : Vec3) (w : World) : World :=
  match o with
  | RigPosition => set_rig_position v w
  | RigRotation => set_rig_rotation v w
  | CameraPosition => set_camera_position v w
  | TargetProxy => set_targetProxy v w
  end.

Record Tween : Type := mkTween {
  tw_object : Animated;
  tw_from : Vec3;                        (* values at set-up *)
  tw_to : Vec3;                          (* the spread pose vector *)
  tw_ease : Ease;
  tw_onUpdate : option (World -> World)
}.

(** The value a tween writes for one coordinate: start plus change times
    ratio. *)
Definition interpolate (s e ratio : Q) : Q := s + (e - s) * ratio.

Definition interpolateVec (s e : Vec3) (ratio : Q) : Vec3 :=
  vec3 (interpolate (x s) (x e) ratio)
       (interpolate (y s) (y e) ratio)
       (interpolate (z s) (z e) ratio).

Definition render_tween (progress : Q) (t : Tween) (w : World) : World :=
  let r := ease_ratio (tw_ease t) progress in
  let w1 := write (tw_object t) (interpolateVec (tw_from t) (tw_to t) r) w in
  match tw_onUpdate t with
  | Some k => k w1
  | None => w1
  end.

(** The [scrollTrigger] options of the timeline. *)
Record ScrollTriggerVars : Type := mkScrollTriggerVars {
  st_start : string;
  st_end : string;
  st_pin : bool;
  st_scrub : bool;
  st_markers : bool;
  st_onUpdate : Q -> World -> World      (* receives self.progress *)
}.

Record Timeline : Type := mkTimeline {
  scrollTrigger : ScrollTriggerVars;
  tweens : list Tween                    (* in insertion order *)
}.

Definition tl_to (o : Animated) (vars : Vec3) (e : Ease)
    (onUpdate : option (World -> World)) (w : World) (tl : Timeline) : Timeline :=
  mkTimeline (scrollTrigger tl)
             (tweens tl ++ [mkTween o (read o w) vars e onUpdate]).

(** Rendering the timeline at a progress renders its tweens in order. *)
Definition render (tl : Timeline) (progress : Q) (w : World) : World :=
  fold_left (fun acc t => render_tween progress t acc) (tweens tl) w.

Definition clamp (lo hi v : Q) : Q := Qmax lo (Qmin hi v).

(** A scroll update of the trigger: the scroll fraction is clamped to
    [0, 1]; with [scrub] the timeline is rendered at that progress; then the
    [onUpdate] option runs. *)
Definition scrollTrigger_update (tl : Timeline) (fraction : Q) (w : World) : World :=
  let progress := clamp 0 1 fraction in
  let w1 := if st_scrub (scrollTrigger tl) then render tl progress w else w in
  st_onUpdate (scrollTrigger tl) progress w1.

(** ** [setupScrollTimeline] *)

(** [document.querySelector]: the element matched by a selector, if any. *)
Definition Document : Type := string -> option nat.

Inductive JsError : Type := TypeError.

Inductive Outcome (A : Type) : Type :=
| Returned (a : A) (w : World)
| Thrown (e : JsError) (w : World).
Arguments Returned {A} a w.
Arguments Thrown {A} e w.

Definition default_sectionSelector : string := "#viewer-section".

Definition setupScrollTimeline (P : Poses) (C : Config) (document : Document)
    (f : TargetApplier) (sectionSelector : string) (w : World)
    : Outcome (option Timeline) :=
  match document sectionSelector with
  | None => Returned None (console Error (SectionNotFound sectionSelector) w)
  | Some _ =>
      let tl := mkTimeline
                  (mkScrollTriggerVars (TRIGGER_START C) (TRIGGER_END C) true
                     (SCRUB_SMOOTHING C) (DEBUG C)
                     (fun progress w' =>
                        if DEBUG C then console Log (ScrollProgress progress) w'
                        else w'))
                  [] in
      match END P with
      | None => Thrown TypeError w     (* POSES.END.rigPos on undefined *)
      | Some e =>
          let tl1 := tl_to RigPosition (rigPos e) none None w tl in
          let tl2 := tl_to RigRotation (rigRot e) none None w tl1 in
          let tl3 := match camLocalPos e with
                     | Some c => tl_to CameraPosition c none None w tl2
                     | None => tl2
                     end in
          let tl4 := tl_to TargetProxy (target e) none
                       (Some (fun w' => call_applier f w')) w tl3 in
          Returned (Some tl4) (console Log TimelineCreated w)
      end
  end.

(** ** The camera part of [init] (main.js)

    [applyStartPose] and then [setupScrollTimeline], both with the
    [applyTarget] closure and the default section selector. *)

Definition init_camera (P : Poses) (document : Document) (w : World)
    : Outcome (option Timeline) :=
  setupScrollTimeline P CONFIG document (Some applyTarget) default_sectionSelector
    (applyStartPose P (Some applyTarget) w).

(** The world after [init_camera] and one scroll update, when the timeline
    was created. *)
Definition scrolled (P : Poses) (document : Document) (w : World) (fraction : Q)
    : option World :=
  match init_camera P document w with
  | Returned (Some tl) w1 => Some (scrollTrigger_update tl fraction w1)
  | _ => None
  end.

(** The world [initViewer] builds: rig at the origin, camera at (0, 2, 8)
    with fov 30, controls disabled with target (0, 0, 0), and the target
    proxy of [init]. *)
Definition initial_world : World := {|
  rig_position := vec3 0 0 0;
  rig_rotation := vec3 0 0 0;
  camera_position := vec3 0 2 8;
  camera_fov := 30;
  camera_projection := 30;
  camera_aim := None;
  controls_enabled := false;
  controls_target := vec3 0 0 0;
  targetProxy := vec3 0 0 0;
  calls := []
|}.

(** A page that has the pinned section. *)
Definition page : Document :=
  fun selector => if String.eqb selector "#viewer-section" then Some 0%nat else None.

(** ** Reading the camera state back *)

Definition Vec3_eq (a b : Vec3) : Prop := x a == x b /\ y a == y b /\ z a == z b.

(** The target as the camera received it: the controls' target in free-look
    mode, the point of the last look-at in locked mode. *)
Definition applied_target (w : World) : option Vec3 :=
  if controls_enabled w then Some (controls_target w)
  else option_map aim_point (camera_aim w).

(** Everything but the trace of calls. *)
Definition observable (w : World) : World :=
  mkWorld (rig_position w) (rig_rotation w) (camera_position w) (camera_fov w)
          (camera_projection w) (camera_aim w) (controls_enabled w)
          (controls_target w) (targetProxy w) [].

(** A fully specified camera state: the shape of a pose with nothing
    optional. *)
Record CameraState : Type := mkCameraState {
  cs_rigPos : Vec3;
  cs_rigRot : Vec3;
  cs_camLocalPos : Vec3;
  cs_target : Vec3;
  cs_fov : Q
}.

Definition camera_state (w : World) : CameraState :=
  mkCameraState (rig_position w) (rig_rotation w) (camera_position w)
                (targetProxy w) (camera_fov w).

(** A pose as a camera state, when none of its optional fields is absent. *)
Definition full (p : Pose) : option CameraState :=
  match camLocalPos p, fov p with
  | Some c, Some v => Some (mkCameraState (rigPos p) (rigRot p) c (target p) v)
  | _, _ => None
  end.

Definition CameraState_eq (a b : CameraState) : Prop :=
  Vec3_eq (cs_rigPos a) (cs_rigPos b) /\
  Vec3_eq (cs_rigRot a) (cs_rigRot b) /\
  Vec3_eq (cs_camLocalPos a) (cs_camLocalPos b) /\
  Vec3_eq (cs_target a) (cs_target b) /\
  cs_fov a == cs_fov b.

(** Linear interpolation as the specification words it, per scalar and per
    field of a camera state. *)
Definition lerp (start stop t : Q) : Q := start + (stop - start) * t.

Definition lerpVec (a b : Vec3) (t : Q) : Vec3 :=
  vec3 (lerp (x a) (x b) t) (lerp (y a) (y b) t) (lerp (z a) (z b) t).

Definition lerpState (a b : CameraState) (t : Q) : CameraState :=
  mkCameraState (lerpVec (cs_rigPos a) (cs_rigPos b) t)
                (lerpVec (cs_rigRot a) (cs_rigRot b) t)
                (lerpVec (cs_camLocalPos a) (cs_camLocalPos b) t)
                (lerpVec (cs_target a) (cs_target b) t)
                (lerp (cs_fov a) (cs_fov b) t).

(** [v] lies between [a] and [b], whichever is the smaller. *)
Definition between (a b v : Q) : Prop := Qmin a b <= v /\ v <= Qmax a b.

Definition betweenVec (a b v : Vec3) : Prop :=
  between (x a) (x b) (x v) /\ between (y a) (y b) (y v) /\ between (z a) (z b) (z v).

Definition betweenState (a b s : CameraState) : Prop :=
  betweenVec (cs_rigPos a) (cs_rigPos b) (cs_rigPos s) /\
  betweenVec (cs_rigRot a) (cs_rigRot b) (cs_rigRot s) /\
  betweenVec (cs_camLocalPos a) (cs_camLocalPos b) (cs_camLocalPos s) /\
  betweenVec (cs_target a) (cs_target b) (cs_target s) /\
  between (cs_fov a) (cs_fov b) (cs_fov s).

(** ** Definitions used by the statements *)

(** The call [applyTarget] makes for a target, given the mode. *)
Definition target_call (enabled : bool) (t : Vec3) : Call :=
  if enabled then ControlsUpdate else CameraLookAt t.

(** The configured poses as camera states. *)
Definition START_state : CameraState :=
  mkCameraState (vec3 0 0 0) (vec3 0 0.0767 0) (vec3 5.980239 1.034926 5.20704)
                (vec3 (-0.196162) 0.000054 0.208513) 30.

Definition END_state : CameraState :=
  mkCameraState (vec3 0 0 0) (vec3 0 0.0767 0) (vec3 (-0.451684) 0.210539 5.422854)
                (vec3 0.048933 0.014605 0.111806) 30.

(** The in-range value nearest to a fraction. *)
Definition nearest_in_range (v : Q) : Q :=
  if Qlt_le_dec v 0 then 0 else if Qlt_le_dec 1 v then 1 else v.

(** The configuration of the scenario: no START pose. *)
Definition POSES_without_START : Poses := {| START := None; END := Some END_pose |}.

(** The applier of main.js, or none. *)
Definition applier (present : bool) : TargetApplier :=
  if present then Some applyTarget else None.

(** ** [refreshScrollTrigger], [createDebouncedRefresh] (scrollTimeline.js)

    The host's timers: [setTimeout] returns a fresh id and queues the
    callback for [now + delay]; [clearTimeout] drops the timer of an id, and
    does nothing for [undefined] or an id no longer queued.  The only
    callback queued by the code is [refreshScrollTrigger].  Times are in
    milliseconds. *)
Module Debounce.

Record Timer : Type := mkTimer { timer_id : nat; timer_due : nat }.

Record Host : Type := mkHost {
  now : nat;
  next_id : nat;               (* the id the next setTimeout returns *)
  timers : list Timer;         (* queued refreshScrollTrigger callbacks *)
  refreshed : nat              (* runs of refreshScrollTrigger so far *)
}.

Definition setTimeout (delay : nat) (h : Host) : nat * Host :=
  (next_id h,
   mkHost (now h) (S (next_id h))
          (timers h ++ [mkTimer (next_id h) (now h + delay)]) (refreshed h)).

Definition clearTimeout (t : option nat) (h : Host) : Host :=
  match t with
  | None => h
  | Some i =>
      mkHost (now h) (next_id h)
             (filter (fun tm => negb (Nat.eqb (timer_id tm) i)) (timers h))
             (refreshed h)
  end.

(** [ScrollTrigger.refresh()] and its log line. *)
Definition refreshScrollTrigger (h : Host) : Host :=
  mkHost (now h) (next_id h) (timers h) (S (refreshed h)).

(** Time passes: the timers that are due run, the others stay queued. *)
Definition elapse (ms : nat) (h : Host) : Host :=
  let t := (now h + ms)%nat in
  fold_left (fun acc _ => refreshScrollTrigger acc)
    (filter (fun tm => Nat.leb (timer_due tm) t) (timers h))
    (mkHost t (next_id h)
            (filter (fun tm => negb (Nat.leb (timer_due tm) t)) (timers h))
            (refreshed h)).

(** The closure [createDebouncedRefresh] returns: its [delay] and its
    variable [timeout], [undefined] at first. *)
Record Debounced : Type := mkDebounced { delay : nat; timeout : option nat }.

Definition createDebouncedRefresh (d : option nat) : Debounced :=
  mkDebounced (match d with Some n => n | None => 300%nat end) None.

(** One call of the closure. *)
Definition call (st : Debounced * Host) : Debounced * Host :=
  let (d, h) := st in
  let h1 := clearTimeout (timeout d) h in
  let (id, h2) := setTimeout (delay d) h1 in
  (mkDebounced (delay d) (Some id), h2).

(** What happens to the closure: the event it listens to fires, or time
    passes. *)
Inductive Event : Type := Fire | Elapse (ms : nat).

Definition step (st : Debounced * Host) (ev : Event) : Debounced * Host :=
  match ev with
  | Fire => call st
  | Elapse ms => (fst st, elapse ms (snd st))
  end.

Definition run (evs : list Event) (st : Debounced * Host) : Debounced * Host :=
  fold_left step evs st.

(** A host with nothing queued, at time [t]. *)
Definition idle (t : nat) : Host := mkHost t 1 [] 0.

(** Events fired in a row, the given times apart. *)
Definition burst (gaps : list nat) : list Event :=
  Fire :: flat_map (fun g => [Elapse g; Fire]) gaps.

Definition fires (evs : list Event) : nat :=
  List.length (filter (fun ev => match ev with Fire => true | Elapse _ => false end) evs).

(** The closure's timer is the only one queued, if any. *)
Definition at_most_own_timer (st : Debounced * Host) : Prop :=
  timers (snd st) = [] \/
  exists i due, timers (snd st) = [mkTimer i due] /\ timeout (fst st) = Some i.

(** The closure's timer is queued for a full delay from now. *)
Definition armed (st : Debounced * Host) : Prop :=
  exists i,
    timers (snd st) = [mkTimer i (now (snd st) + delay (fst st))] /\
    timeout (fst st) = Some i.

End Debounce.

(** ** [capturePose] and the keyboard controls (initViewer.js) *)
Module InitViewer.

Definition pow10 (digits : nat) : Q := inject_Z (10 ^ Z.of_nat digits).

(** [parseFloat(v.toFixed(digits))]: the nearest multiple of
    10^(-digits), a tie going away from zero; from 10^21 on, [toFixed] prints
    the number itself. *)
Definition toFixed (digits : nat) (v : Q) : Q :=
  if Qle_bool (inject_Z (10 ^ 21)) (Qabs v) then v
  else if Qle_bool 0 v
       then inject_Z (Qfloor (v * pow10 digits + (1 # 2))) / pow10 digits
       else - (inject_Z (Qfloor (- v * pow10 digits + (1 # 2))) / pow10 digits).

Definition toFixedVec (digits : nat) (v : Vec3) : Vec3 :=
  vec3 (toFixed digits (x v)) (toFixed digits (y v)) (toFixed digits (z v)).

(** [capturePose(cameraRig, camera, controls)], on the fields a pose of
    [POSES] has.  The object it returns carries also [rigQuat],
    [camWorldPos] and [camWorldQuat], computed by the rendering library from
    the world matrices; no code reads them back, and they are not part of
    the embedding. *)
Definition capturePose (w : World) : Pose := {|
  rigPos := toFixedVec 6 (rig_position w);
  rigRot := toFixedVec 6 (rig_rotation w);
  camLocalPos := Some (toFixedVec 6 (camera_position w));
  target := toFixedVec 6 (controls_target w);
  fov := Some (toFixed 2 (camera_fov w))
|}.

(** A child of the scene: what the key handler looks at. *)
Inductive Kind : Type := LightObject | GroundPlane | OtherObject.

Record Child : Type := mkChild { child_id : nat; kind : Kind; visible : bool }.

Definition is_light (c : Child) : bool :=
  match kind c with LightObject => true | _ => false end.

Definition is_ground (c : Child) : bool :=
  match kind c with GroundPlane => true | _ => false end.

(** Lines the key handler prints. *)
Inductive Printed : Type :=
| OrbitControlsToggled (enabled : bool)
| PoseCaptured (pose : Pose)
| AppliedSTART
| AppliedEND
| LightsToggled (on : bool)
| BackgroundSet (hex : Z)
| GroundToggled (on : bool).

(** The state the handler of [setupKeyboardControls] works on: the camera
    world, the scene, the closure's variables, and whether main.js has set
    [window.__applyPoseStart] and [window.__applyPoseEnd]. *)
Record Viewer : Type := mkViewer {
  world : World;
  children : list Child;          (* scene.children *)
  background : option Z;          (* scene.background?.getHex?.() *)
  lightsVisible : bool;
  groundVisible : bool;
  groundPlane : option nat;       (* the child id of the plane, or null *)
  next_child : nat;               (* id of the next object created *)
  helpers : bool;
  printed : list Printed
}.

Definition bgColor : Z := 16777215.      (* 0xffffff *)

Definition print (l : Printed) (v : Viewer) : Viewer :=
  mkViewer (world v) (children v) (background v) (lightsVisible v)
           (groundVisible v) (groundPlane v) (next_child v) (helpers v)
           (printed v ++ [l]).

Definition set_world (w : World) (v : Viewer) : Viewer :=
  mkViewer w (children v) (background v) (lightsVisible v)
           (groundVisible v) (groundPlane v) (next_child v) (helpers v)
           (printed v).

Definition set_visible (b : bool) (c : Child) : Child :=
  mkChild (child_id c) (kind c) b.

(** [scene.remove(object)] *)
Definition scene_remove (id : nat) (cs : list Child) : list Child :=
  filter (fun c => negb (Nat.eqb (child_id c) id)) cs.

(** The [keydown] listener, on [e.key.toLowerCase()]. *)
Definition keydown (key : string) (v : Viewer) : Viewer :=
  if String.eqb key "o" then
    let enabled := negb (controls_enabled (world v)) in
    print (OrbitControlsToggled enabled)
          (set_world (set_controls_enabled enabled (world v)) v)
  else if String.eqb key "p" then
    print (PoseCaptured (capturePose (world v))) v
  else if String.eqb key "1" then
    if helpers v then
      print AppliedSTART
            (set_world (applyStartPose POSES (Some applyTarget) (world v)) v)
    else v
  else if String.eqb key "2" then
    if helpers v then
      print AppliedEND
            (set_world (applyEndPose POSES (Some applyTarget) (world v)) v)
    else v
  else if String.eqb key "l" then
    let on := negb (lightsVisible v) in
    print (LightsToggled on)
      (mkViewer (world v)
                (map (fun c => if is_light c then set_visible on c else c)
                     (children v))
                (background v) on (groundVisible v) (groundPlane v)
                (next_child v) (helpers v) (printed v))
  else if String.eqb key "b" then
    let hex := match background v with
               | Some h => if Z.eqb h bgColor then 0%Z else bgColor
               | None => bgColor
               end in
    print (BackgroundSet hex)
      (mkViewer (world v) (children v) (Some hex) (lightsVisible v)
                (groundVisible v) (groundPlane v) (next_child v) (helpers v)
                (printed v))
  else if String.eqb key "g" then
    let on := negb (groundVisible v) in
    print (GroundToggled on)
      match groundVisible v, groundPlane v with
      | true, Some id =>
          mkViewer (world v) (scene_remove id (children v)) (background v)
                   (lightsVisible v) on None (next_child v) (helpers v)
                   (printed v)
      | _, _ =>
          mkViewer (world v)
                   (children v ++ [mkChild (next_child v) GroundPlane true])
                   (background v) (lightsVisible v) on (Some (next_child v))
                   (S (next_child v)) (helpers v) (printed v)
      end
  else v.

Definition keys (ks : list string) (v : Viewer) : Viewer :=
  fold_left (fun acc k => keydown k acc) ks v.

(** The viewer as [initViewer] and [init] leave it: the scene holds the
    given children, none of them a ground plane of the handler. *)
Definition viewer_of (w : World) (cs : list Child) (fresh : nat) : Viewer :=
  mkViewer w cs (Some bgColor) true false None fresh true [].

Definition ground_planes (v : Viewer) : list Child := filter is_ground (children v).



(** The variables of the ground toggle agree with the scene. *)
Definition ground_consistent (v : Viewer) : Prop :=
  if groundVisible v
  then exists id,
         groundPlane v = Some id /\
         ground_planes v = [mkChild id GroundPlane true]
  else groundPlane v = None /\ ground_planes v = [].

(** How often a key occurs in a sequence of keys. *)
Definition presses (key : string) (ks : list string) : nat :=
  List.length (filter (String.eqb key) ks).

End InitViewer.

(** ** [applyHDRI], [configureRenderer] (lighting.js) and the lighting step
    of [init] (main.js) *)
Module Lighting.

Inductive EnvSource : Type := HDRI | RoomEnvironment.

(** The environment map returned; [env_rotation] is [texture.rotation] when
    the code sets it. *)
Record EnvMap : Type := mkEnvMap { env_source : EnvSource; env_rotation : option Q }.

Inductive ColorSpace : Type := SRGBColorSpace | OtherColorSpace.
Inductive ToneMapping : Type := ACESFilmicToneMapping | OtherToneMapping.
Inductive ShadowMapType : Type := PCFSoftShadowMap | OtherShadowMap.

Record Renderer : Type := mkRenderer {
  outputColorSpace : ColorSpace;
  toneMapping : ToneMapping;
  toneMappingExposure : Q;
  physicallyCorrectLights : option bool;     (* None: the property is undefined *)
  shadowMap_enabled : bool;
  shadowMap_type : ShadowMapType
}.

(** Messages of the status overlay that the lighting step sets. *)
Inductive Status : Type :=
| StatusOther
| LoadingHDRI
| HDRILoaded
| StudioLightsApplied.

Inductive Line : Type :=
| HdriLoadedLog (intensity : Q)
| HdriNotFoundWarn
| RoomFallbackLog
| RoomFailedWarn
| HdriNotAvailableWarn
| RendererConfiguredLog.

Record Stage : Type := mkStage {
  renderer : Renderer;
  environment : option EnvMap;      (* scene.environment *)
  status : Status;                  (* what the status overlay shows *)
  lines : list Line                 (* console, oldest first *)
}.

(** What the host does at the calls that can fail: the loader's promise,
    the PMREM generator on the loaded texture, the dynamic import of
    RoomEnvironment, and the generator on the room scene. *)
Record Host : Type := mkHost {
  hdr_loads : bool;
  pmrem_hdr : bool;
  room_import : bool;
  pmrem_room : bool
}.

Inductive Result (A : Type) : Type :=
| Ok (a : A) (s : Stage)
| Throw (s : Stage).
Arguments Ok {A} a s.
Arguments Throw {A} s.

Definition bind {A B : Type} (r : Result A) (k : A -> Stage -> Result B) : Result B :=
  match r with
  | Ok a s => k a s
  | Throw s => Throw s
  end.

Definition try_catch {A : Type} (body : Result A) (handler : Stage -> Result A) : Result A :=
  match body with
  | Ok a s => Ok a s
  | Throw s => handler s
  end.

Definition may_fail (ok : bool) (s : Stage) : Result unit :=
  if ok then Ok tt s else Throw s.

Definition say (l : Line) (s : Stage) : Stage :=
  mkStage (renderer s) (environment s) (status s) (lines s ++ [l]).

Definition set_exposure (e : Q) (s : Stage) : Stage :=
  mkStage (mkRenderer (outputColorSpace (renderer s)) (toneMapping (renderer s)) e
                      (physicallyCorrectLights (renderer s))
                      (shadowMap_enabled (renderer s)) (shadowMap_type (renderer s)))
          (environment s) (status s) (lines s).

Definition set_environment (m : EnvMap) (s : Stage) : Stage :=
  mkStage (renderer s) (Some m) (status s) (lines s).

(** [updateStatus(statusDiv, message)], the overlay being there. *)
Definition updateStatus (m : Status) (s : Stage) : Stage :=
  mkStage (renderer s) (environment s) m (lines s).

(** The [opts] argument; a missing property is [None]. *)
Record Opts : Type := mkOpts { intensity : option Q; rotationY : option Q }.

Definition applyHDRI (h : Host) (opts : Opts) (s : Stage) : Result (option EnvMap) :=
  let i := match intensity opts with Some v => v | None => 1.3 end in
  let r := match rotationY opts with Some v => v | None => 0 end in
  try_catch
    (bind (may_fail (hdr_loads h) s) (fun _ s1 =>
     bind (may_fail (pmrem_hdr h) s1) (fun _ s2 =>
       let envMap := mkEnvMap HDRI (if Qeq_bool r 0 then None else Some r) in
       Ok (Some envMap)
          (say (HdriLoadedLog i) (set_exposure i (set_environment envMap s2))))))
    (fun s1 =>
       try_catch
         (bind (may_fail (room_import h) (say HdriNotFoundWarn s1)) (fun _ s2 =>
          bind (may_fail (pmrem_room h) s2) (fun _ s3 =>
            let envMap := mkEnvMap RoomEnvironment None in
            Ok (Some envMap)
               (say RoomFallbackLog (set_exposure i (set_environment envMap s3))))))
         (fun s2 => Ok None (say RoomFailedWarn s2))).

Definition configureRenderer (s : Stage) : Stage :=
  say RendererConfiguredLog
    (mkStage (mkRenderer SRGBColorSpace ACESFilmicToneMapping 1.2
                (match physicallyCorrectLights (renderer s) with
                 | Some _ => Some true
                 | None => None
                 end)
                true PCFSoftShadowMap)
             (environment s) (status s) (lines s)).

(** The lighting step of [init]: its [try] around [applyHDRI] and its
    [catch]. *)
Definition init_lighting (h : Host) (s : Stage) : Result unit :=
  try_catch
    (bind (applyHDRI h (mkOpts (Some 1.3) None) (updateStatus LoadingHDRI s))
          (fun _ s1 => Ok tt (updateStatus HDRILoaded s1)))
    (fun s1 => Ok tt (updateStatus StudioLightsApplied (say HdriNotAvailableWarn s1))).

(** Which environment the host lets [applyHDRI] build, if any. *)
Definition built (h : Host) : option EnvSource :=
  if hdr_loads h && pmrem_hdr h then Some HDRI
  else if room_import h && pmrem_room h then Some RoomEnvironment
  else None.

End Lighting.

(** ** Scaling and glass detection (loadModel.js) *)
Module LoadModel.

(** [Math.max(size.x, size.y, size.z)] *)
Definition maxDim (size : Vec3) : Q := Qmax (Qmax (x size) (y size)) (z size).

(** What the loader does to [model.scale]: nothing, [setScalar(scale)], or
    [setScalar(Infinity)] when the division is by zero. *)
Inductive Scaling : Type := Keep | ScaleBy (scale : Q) | ScaleInfinite.

Definition Qlt_bool (a b : Q) : bool := negb (Qle_bool b a).

Definition smartScale (size : Vec3) : Scaling :=
  let m := maxDim size in
  let radius := m / 2 in
  if Qlt_bool 1000 radius || Qlt_bool radius 0.01 then
    if Qeq_bool m 0 then ScaleInfinite else ScaleBy (3 / m)
  else Keep.

(** The factor by which the largest dimension ends up multiplied. *)
Definition factor (s : Scaling) : option Q :=
  match s with
  | Keep => Some 1
  | ScaleBy k => Some k
  | ScaleInfinite => None
  end.

(** A material, as [detectGlass] reads it: its name, whether [transparent]
    is [true], and its opacity when that is a number. *)
Record Material : Type := mkMaterial {
  mat_name : option string;
  transparent : bool;
  opacity : option Q
}.

(** [mesh.material]: one material or an array, with null entries possible. *)
Inductive MeshMaterial : Type :=
| Single (m : option Material)
| Many (ms : list (option Material)).

Record Mesh : Type := mkMesh { mesh_name : option string; material : MeshMaterial }.

Definition getMaterials (mesh : Mesh) : list Material :=
  match material mesh with
  | Many ms => flat_map (fun m => match m with Some a => [a] | None => [] end) ms
  | Single (Some m) => [m]
  | Single None => []
  end.

(** [s.includes(k)] *)
Fixpoint includes (s k : string) : bool :=
  String.prefix k s ||
  match s with
  | EmptyString => false
  | String _ s' => includes s' k
  end.

Definition glassKeywords : list string :=
  ["glass"; "window"; "windshield"; "windscreen"; "rear_window"; "front_window";
   "backglass"; "透明"]%string.

(** [glassKeywords.some((keyword) => s.includes(keyword))] *)
Definition matchesKeyword (s : string) : bool :=
  existsb (fun keyword => includes s keyword) glassKeywords.

Definition or_empty (s : option string) : string :=
  match s with Some a => a | None => EmptyString end.

Section DetectGlass.

(** [String.prototype.toLowerCase], left to the host. *)
Variable toLowerCase : string -> string.

Definition materialMatches (mat : option Material) : bool :=
  let matName := toLowerCase (or_empty (match mat with
                                        | Some m => mat_name m
                                        | None => None
                                        end)) in
  let isTransparent := match mat with Some m => transparent m | None => false end in
  let lowOpacity := match mat with
                    | Some m => match opacity m with
                                | Some o => Qlt_bool o 1
                                | None => false
                                end
                    | None => false
                    end in
  matchesKeyword matName || isTransparent || lowOpacity.

Definition detectGlass (mesh : Mesh) (materials : list (option Material)) : bool :=
  let name := toLowerCase (or_empty (mesh_name mesh)) in
  let nameMatch := matchesKeyword name in
  let materialMatch := existsb materialMatches materials in
  nameMatch || materialMatch.

(** The test the loader makes on a mesh. *)
Definition isGlass (mesh : Mesh) : bool :=
  detectGlass mesh (map Some (getMaterials mesh)).

End DetectGlass.

(** The keywords without those that contain another keyword. *)
Definition decidingKeywords : list string :=
  ["glass"; "window"; "windshield"; "windscreen"; "透明"]%string.

End LoadModel.


(** * Properties *)

(** ** Arithmetic of the interpolation *)

Lemma clamp_in_range (p : Q) : 0 <= p -> p <= 1 -> clamp 0 1 p == p.
Proof.
  intros H0 H1. unfold clamp.
  rewrite (Q.min_r 1 p) by exact H1.
  apply Q.max_r. exact H0.
Qed.

Lemma clamp_bounds (v : Q) : 0 <= clamp 0 1 v /\ clamp 0 1 v <= 1.
Proof.
  unfold clamp. split.
  - apply Q.le_max_l.
  - apply Q.max_lub; [lra | apply Q.le_min_l].
Qed.


Lemma interpolate_is_lerp (s e t : Q) : interpolate s e t = lerp s e t.
Proof. reflexivity. Qed.

Lemma interpolate_ratio_eq (s e t t' : Q) :
  t == t' -> interpolate s e t == interpolate s e t'.
Proof. intros H. unfold interpolate. rewrite H. reflexivity. Qed.

Lemma lerp_between (a b t : Q) : 0 <= t -> t <= 1 -> between a b (lerp a b t).
Proof.
  intros H0 H1. unfold between, lerp.
  destruct (Qlt_le_dec a b) as [Hab | Hba].
  - rewrite (Q.min_l a b) by lra. rewrite (Q.max_r a b) by lra. split; nra.
  - rewrite (Q.min_r a b) by lra. rewrite (Q.max_l a b) by lra. split; nra.
Qed.

(** ** The scrolled world, field by field *)

Lemma Vec3_eta (v : Vec3) : vec3 (x v) (y v) (z v) = v.
Proof. destruct v; reflexivity. Qed.

Lemma applyTarget_calls (t : Vec3) (w : World) :
  calls (applyTarget t w) = calls w ++ [target_call (controls_enabled w) t].
Proof.
  unfold applyTarget, target_call.
  destruct (controls_enabled w); simpl; rewrite ?Vec3_eta; reflexivity.
Qed.

Lemma applyTarget_applied (t : Vec3) (w : World) :
  applied_target (applyTarget t w) = Some t.
Proof.
  unfold applyTarget, applied_target.
  destruct (controls_enabled w) eqn:E; simpl; rewrite E, ?Vec3_eta; reflexivity.
Qed.

(** With the configured poses and the section on the page, [init] creates
    the timeline, and a scroll update leaves every animated vector at the
    interpolation of the START and END vectors at the clamped fraction, the
    fov at the START value, and the target applied. *)
Lemma scrolled_fields (document : Document) (el : nat) (w : World) (fraction : Q) :
  document default_sectionSelector = Some el ->
  exists s,
    scrolled POSES document w fraction = Some s /\
    rig_position s =
      interpolateVec (rigPos START_pose) (rigPos END_pose) (clamp 0 1 fraction) /\
    rig_rotation s =
      interpolateVec (rigRot START_pose) (rigRot END_pose) (clamp 0 1 fraction) /\
    camera_position s =
      interpolateVec (vec3 5.980239 1.034926 5.20704)
                     (vec3 (-0.451684) 0.210539 5.422854) (clamp 0 1 fraction) /\
    targetProxy s =
      interpolateVec (target START_pose) (target END_pose) (clamp 0 1 fraction) /\
    camera_fov s = 30 /\
    camera_projection s = 30 /\
    controls_enabled s = controls_enabled w /\
    applied_target s = Some (targetProxy s) /\
    calls s = calls w ++
      [UpdateProjectionMatrix;
       target_call (controls_enabled w) (target START_pose);
       Console Log StartPoseApplied;
       Console Log TimelineCreated;
       target_call (controls_enabled w) (targetProxy s)].
Proof.
  intros H. unfold scrolled, init_camera, setupScrollTimeline.
  rewrite H. cbn -[interpolateVec clamp applyTarget].
  eexists. split; [reflexivity |].
  destruct w as [rp rr cp cf cpj ca ce ct tp cl].
  destruct ce; cbn -[clamp Qplus Qmult Qminus];
    rewrite <- ?app_assoc; repeat split; reflexivity.
Qed.

Lemma full_START : full START_pose = Some START_state.
Proof. reflexivity. Qed.

Lemma full_END : full END_pose = Some END_state.
Proof. reflexivity. Qed.

Lemma interpolateVec_lerpVec (a b : Vec3) (t t' : Q) :
  t == t' -> Vec3_eq (interpolateVec a b t) (lerpVec a b t').
Proof.
  intros H. unfold Vec3_eq, interpolateVec, lerpVec; simpl.
  repeat split; apply interpolate_ratio_eq; exact H.
Qed.

(** The camera state after a scroll update at an in-range progress. *)
Lemma scrolled_state (document : Document) (el : nat) (w : World) (p : Q) :
  document default_sectionSelector = Some el ->
  0 <= p -> p <= 1 ->
  exists s,
    scrolled POSES document w p = Some s /\
    CameraState_eq (camera_state s) (lerpState START_state END_state p) /\
    applied_target s = Some (cs_target (camera_state s)).
Proof.
  intros H H0 H1.
  destruct (scrolled_fields document el w p H)
    as (s & Hs & Hrp & Hrr & Hcp & Htp & Hfov & _ & _ & Happ & _).
  exists s. split; [exact Hs |]. split; [| exact Happ].
  pose proof (clamp_in_range p H0 H1) as Hc.
  unfold CameraState_eq, camera_state, lerpState; simpl.
  rewrite Hrp, Hrr, Hcp, Htp, Hfov.
  repeat apply conj; try (apply interpolateVec_lerpVec; exact Hc).
  unfold lerp. ring.
Qed.

Lemma between_compat (a b v v' : Q) : v == v' -> between a b v' -> between a b v.
Proof. unfold between. intros H [H1 H2]. rewrite H. split; assumption. Qed.

Lemma lerpVec_between (a b : Vec3) (t : Q) :
  0 <= t -> t <= 1 -> betweenVec a b (lerpVec a b t).
Proof.
  intros H0 H1. unfold betweenVec, lerpVec; simpl.
  repeat split; apply lerp_between; assumption.
Qed.

Lemma betweenVec_compat (a b v v' : Vec3) :
  Vec3_eq v v' -> betweenVec a b v' -> betweenVec a b v.
Proof.
  unfold Vec3_eq, betweenVec. intros (Hx & Hy & Hz) (Bx & By & Bz).
  repeat split; eapply between_compat; eauto.
Qed.

Lemma lerpState_between (a b s : CameraState) (t : Q) :
  0 <= t -> t <= 1 ->
  CameraState_eq s (lerpState a b t) -> betweenState a b s.
Proof.
  intros H0 H1 (E1 & E2 & E3 & E4 & E5).
  refine (conj _ (conj _ (conj _ (conj _ _))));
    try (eapply betweenVec_compat;
         [eassumption | apply lerpVec_between; assumption]).
  eapply between_compat; [exact E5 | apply lerp_between; assumption].
Qed.

(** ** The timeline interpolates linearly *)



(** C2. At progress 0 the timeline reproduces every field of the START pose,
    and at progress 1 every field of the END pose. *)
Theorem timeline_endpoints (document : Document) (el : nat) (w : World) :
  document default_sectionSelector = Some el ->
  exists s0 s1 a b,
    scrolled POSES document w 0 = Some s0 /\
    scrolled POSES document w 1 = Some s1 /\
    option_map full (START POSES) = Some (Some a) /\
    option_map full (END POSES) = Some (Some b) /\
    CameraState_eq (camera_state s0) a /\
    CameraState_eq (camera_state s1) b.
Proof.
  intros H.
  destruct (scrolled_fields document el w 0 H)
    as (s0 & Hs0 & Hrp0 & Hrr0 & Hcp0 & Htp0 & Hfov0 & _).
  destruct (scrolled_fields document el w 1 H)
    as (s1 & Hs1 & Hrp1 & Hrr1 & Hcp1 & Htp1 & Hfov1 & _).
  exists s0, s1, START_state, END_state.
  split; [exact Hs0 |]. split; [exact Hs1 |].
  split; [reflexivity |]. split; [reflexivity |].
  unfold CameraState_eq, camera_state; simpl.
  rewrite Hrp0, Hrr0, Hcp0, Htp0, Hfov0, Hrp1, Hrr1, Hcp1, Htp1, Hfov1.
  split; vm_compute; repeat split; reflexivity.
Qed.

Lemma timeline_endpoints_witness :
  page default_sectionSelector = Some 0%nat /\
  exists s0 s1 a b,
    scrolled POSES page initial_world 0 = Some s0 /\
    scrolled POSES page initial_world 1 = Some s1 /\
    option_map full (START POSES) = Some (Some a) /\
    option_map full (END POSES) = Some (Some b) /\
    CameraState_eq (camera_state s0) a /\
    CameraState_eq (camera_state s1) b.
Proof.
  split; [reflexivity |].
  apply (timeline_endpoints page 0%nat initial_world). reflexivity.
Defined.

(** The timeline has no tween on [camera.fov]: after [init], a scroll update
    leaves the fov where [applyStartPose] put it, whatever the poses.  With
    the configured poses START and END both have fov 30. *)
Remark timeline_does_not_animate_fov
    (P : Poses) (document : Document) (w : World) (fraction : Q) (s : World) :
  scrolled P document w fraction = Some s ->
  camera_fov s = camera_fov (applyStartPose P (Some applyTarget) w).
Proof.
  unfold scrolled, init_camera, setupScrollTimeline.
  generalize (applyStartPose P (Some applyTarget) w) as w1. intros w1.
  destruct (document default_sectionSelector); [| discriminate].
  destruct (END P) as [e |]; [| discriminate].
  intros [= <-].
  destruct w1 as [rp rr cp cf cpj ca ce ct tp cl].
  destruct (camLocalPos e), ce; reflexivity.
Qed.

Example fov_of_END_is_not_reached :
  option_map camera_fov
    (scrolled (mkPoses (Some START_pose)
                       (Some (mkPose (rigPos END_pose) (rigRot END_pose)
                                     (camLocalPos END_pose) (target END_pose)
                                     (Some 60))))
              page initial_world 1)
  = Some 30.
Proof. reflexivity. Qed.

(** ** The midpoint of the configured poses *)

(** The figures of the specification's example are the lerp of the targets
    it lists. *)
Remark lerp_listed_targets :
  Vec3_eq (lerpVec (vec3 (-0.196) 0.0001 0.209) (vec3 0.049 0.015 0.112) 0.5)
          (vec3 (-0.0735) 0.00755 0.1605).
Proof. vm_compute. repeat split; reflexivity. Qed.




(** ** No overshoot *)

(** C6. For progress values p1 < p2 in [0,1], every scalar field of the
    camera state at p1 and at p2 lies between the corresponding START and END
    values, inclusive. *)
Theorem timeline_never_overshoots
    (document : Document) (el : nat) (w : World) (p1 p2 : Q) :
  document default_sectionSelector = Some el ->
  0 <= p1 -> p1 < p2 -> p2 <= 1 ->
  exists s1 s2 a b,
    scrolled POSES document w p1 = Some s1 /\
    scrolled POSES document w p2 = Some s2 /\
    option_map full (START POSES) = Some (Some a) /\
    option_map full (END POSES) = Some (Some b) /\
    betweenState a b (camera_state s1) /\
    betweenState a b (camera_state s2).
Proof.
  intros H H0 H12 H1.
  assert (Hp1 : p1 <= 1) by lra.
  assert (Hp2 : 0 <= p2) by lra.
  destruct (scrolled_state document el w p1 H H0 Hp1) as (s1 & Hs1 & Heq1 & _).
  destruct (scrolled_state document el w p2 H Hp2 H1) as (s2 & Hs2 & Heq2 & _).
  exists s1, s2, START_state, END_state.
  split; [exact Hs1 |]. split; [exact Hs2 |].
  split; [reflexivity |]. split; [reflexivity |].
  split.
  - exact (lerpState_between _ _ _ p1 H0 Hp1 Heq1).
  - exact (lerpState_between _ _ _ p2 Hp2 H1 Heq2).
Qed.

Lemma timeline_never_overshoots_witness :
  page default_sectionSelector = Some 0%nat /\
  0 <= 1 # 4 /\ 1 # 4 < 3 # 4 /\ 3 # 4 <= 1 /\
  exists s1 s2 a b,
    scrolled POSES page initial_world (1 # 4) = Some s1 /\
    scrolled POSES page initial_world (3 # 4) = Some s2 /\
    option_map full (START POSES) = Some (Some a) /\
    option_map full (END POSES) = Some (Some b) /\
    betweenState a b (camera_state s1) /\
    betweenState a b (camera_state s2).
Proof.
  split; [reflexivity |].
  split; [discriminate |].
  split; [reflexivity |].
  split; [discriminate |].
  apply (timeline_never_overshoots page 0%nat initial_world (1 # 4) (3 # 4));
    [reflexivity | discriminate | reflexivity | discriminate].
Defined.

(** ** Progress out of range *)


Lemma clamp_nearest (v : Q) : clamp 0 1 v == nearest_in_range v.
Proof.
  unfold nearest_in_range, clamp.
  destruct (Qlt_le_dec v 0) as [Hlt | Hge].
  - rewrite (Q.min_r 1 v) by lra. apply Q.max_l. lra.
  - destruct (Qlt_le_dec 1 v) as [Hgt | Hle].
    + rewrite (Q.min_l 1 v) by lra. apply Q.max_r. lra.
    + rewrite (Q.min_r 1 v) by lra. apply Q.max_r. lra.
Qed.






(** ** Missing poses *)

(** C9. [applyPose] with a missing pose returns at once: the world, the
    trace of calls included, is unchanged, whatever the applier. *)
Theorem applyPose_missing_pose (f : TargetApplier) (w : World) :
  let w' := applyPose f None w in
  rig_position w' = rig_position w /\
  rig_rotation w' = rig_rotation w /\
  camera_position w' = camera_position w /\
  camera_fov w' = camera_fov w /\
  camera_projection w' = camera_projection w /\
  targetProxy w' = targetProxy w /\
  controls_target w' = controls_target w /\
  camera_aim w' = camera_aim w /\
  calls w' = calls w /\
  w' = w.
Proof.
  intros w'. subst w'.
  destruct f as [g |]; unfold applyPose; repeat split.
Qed.

(** With the START pose missing nothing is raised: [init] applies nothing,
    creates the timeline and returns it. *)
Lemma missing_START_is_not_rejected :
  (exists tl w1,
     init_camera POSES_without_START page initial_world = Returned (Some tl) w1 /\
     observable w1 = observable initial_world) /\
  forall e w1, init_camera POSES_without_START page initial_world <> Thrown e w1.
Proof.
  split.
  - eexists. eexists. split; [vm_compute; reflexivity | reflexivity].
  - intros e w1. vm_compute. discriminate.
Qed.

(** With END undefined, the set-up stops at the first read of a property of
    [POSES.END], with the TypeError of the language. *)
Lemma setupScrollTimeline_missing_END
    (s : option Pose) (C : Config) (document : Document) (el : nat)
    (f : TargetApplier) (selector : string) (w : World) :
  document selector = Some el ->
  setupScrollTimeline (mkPoses s None) C document f selector w = Thrown TypeError w.
Proof. intros H. unfold setupScrollTimeline. rewrite H. reflexivity. Qed.

(** C3 (amended). Setting up the timeline validates no pose and raises no
    configuration error: with the START pose missing and the section on the
    page, applying the start pose is skipped silently, leaving the camera
    rig, the camera and the target as they were, and the set-up returns a
    timeline. *)
Theorem missing_START_is_skipped_silently
    (e : Pose) (document : Document) (el : nat) (w : World) :
  document default_sectionSelector = Some el ->
  exists tl,
    init_camera (mkPoses None (Some e)) document w =
      Returned (Some tl)
        (console Log TimelineCreated (console Log StartPoseApplied w)) /\
    applyPose (Some applyTarget) (START (mkPoses None (Some e))) w = w.
Proof.
  intros H. unfold init_camera, setupScrollTimeline, applyStartPose.
  cbn -[console]. rewrite H. cbn -[console].
  eexists. split; reflexivity.
Qed.

Lemma missing_START_is_skipped_silently_witness :
  page default_sectionSelector = Some 0%nat /\
  exists tl,
    init_camera (mkPoses None (Some END_pose)) page initial_world =
      Returned (Some tl)
        (console Log TimelineCreated (console Log StartPoseApplied initial_world)) /\
    applyPose (Some applyTarget) (START (mkPoses None (Some END_pose))) initial_world
      = initial_world.
Proof.
  split; [reflexivity |].
  apply (missing_START_is_skipped_silently END_pose page 0%nat initial_world).
  reflexivity.
Defined.

(** ** The two ways of applying a target *)

(** C5. Applying a target with the controls enabled writes it into the
    controls' target and makes the controls recompute; with the controls
    disabled it calls the camera's look-at.  One apply makes exactly one of
    the two calls and touches only that side, and the flag is read anew by
    each apply: after the flag is set to [b], the next apply follows [b]. *)
Theorem applyTarget_mode_switch (t : Vec3) (w : World) (b : bool) :
  calls (applyTarget t w) =
    calls w ++ [if controls_enabled w then ControlsUpdate else CameraLookAt t] /\
  controls_target (applyTarget t w) =
    (if controls_enabled w then t else controls_target w) /\
  camera_aim (applyTarget t w) =
    (if controls_enabled w then camera_aim w
     else Some (mkAim (rig_position w) (rig_rotation w) (camera_position w) t)) /\
  applied_target (applyTarget t w) = Some t /\
  calls (applyTarget t (set_controls_enabled b (applyTarget t w))) =
    calls (applyTarget t w) ++ [if b then ControlsUpdate else CameraLookAt t].
Proof.
  destruct w as [rp rr cp cf cpj ca ce ct tp cl], t as [tx ty tz].
  destruct ce, b; repeat split; reflexivity.
Qed.

(** ** Applying a pose *)

(** C7. Applying the same pose twice in succession leaves the camera rig,
    the camera and the target as one application does. *)
Theorem applyPose_idempotent (present : bool) (pose : option Pose) (w : World) :
  observable (applyPose (applier present) pose (applyPose (applier present) pose w)) =
  observable (applyPose (applier present) pose w).
Proof.
  destruct pose as [[rp rr [c |] t [v |]] |]; [| | | | reflexivity];
    destruct w as [wrp wrr wcp wcf wcpj wca wce wct wtp wcl];
    destruct present, wce; reflexivity.
Qed.


(** * Further properties of [scrollTimeline.js] *)

(** X1. Without the pinned section on the page, [init] still applies the
    start pose, then [setupScrollTimeline] logs one error naming the selector
    and returns null: no timeline, and nothing thrown, whatever the poses. *)
Theorem init_camera_section_missing (P : Poses) (document : Document) (w : World) :
  document default_sectionSelector = None ->
  init_camera P document w =
    Returned None
      (console Error (SectionNotFound default_sectionSelector)
         (applyStartPose P (Some applyTarget) w)) /\
  (forall fraction, scrolled P document w fraction = None).
Proof.
  intros H. unfold scrolled, init_camera, setupScrollTimeline.
  rewrite H. split; reflexivity.
Qed.

Lemma init_camera_section_missing_witness :
  (fun _ : string => @None nat) default_sectionSelector = None /\
  init_camera POSES (fun _ => None) initial_world =
    Returned None
      (console Error (SectionNotFound default_sectionSelector)
         (applyStartPose POSES (Some applyTarget) initial_world)) /\
  (forall fraction, scrolled POSES (fun _ => None) initial_world fraction = None).
Proof.
  split; [reflexivity |].
  apply (init_camera_section_missing POSES (fun _ => None) initial_world).
  reflexivity.
Defined.





(** X4. A pose with [camLocalPos] and [fov] overwrites all that an earlier
    pose wrote: applying [a] and then [b] leaves the camera rig, camera and
    target as applying [b] alone. *)
Theorem applyPose_last_pose_wins
    (present : bool) (a b : Pose) (fb : CameraState) (w : World) :
  full b = Some fb ->
  observable (applyPose (applier present) (Some b)
                (applyPose (applier present) (Some a) w)) =
  observable (applyPose (applier present) (Some b) w).
Proof.
  destruct b as [brp brr [bc |] bt [bf |]]; try discriminate. intros _.
  destruct a as [arp arr ac at_ af].
  destruct w as [rp rr cp cf cpj ca ce ct tp cl].
  destruct ac, af, present, ce; reflexivity.
Qed.

Lemma applyPose_last_pose_wins_witness :
  full END_pose = Some END_state /\
  observable (applyPose (applier true) (Some END_pose)
                (applyPose (applier true) (Some START_pose) initial_world)) =
  observable (applyPose (applier true) (Some END_pose) initial_world).
Proof.
  split; [reflexivity |].
  apply (applyPose_last_pose_wins true START_pose END_pose END_state initial_world).
  reflexivity.
Defined.





(** * The debounced refresh *)

Lemma call_own_timer (st : Debounce.Debounced * Debounce.Host) :
  Debounce.at_most_own_timer st ->
  Debounce.timers (snd (Debounce.call st)) =
    [Debounce.mkTimer (Debounce.next_id (snd st))
       (Debounce.now (snd st) + Debounce.delay (fst st))] /\
  Debounce.timeout (fst (Debounce.call st)) = Some (Debounce.next_id (snd st)) /\
  Debounce.delay (fst (Debounce.call st)) = Debounce.delay (fst st) /\
  Debounce.now (snd (Debounce.call st)) = Debounce.now (snd st) /\
  Debounce.refreshed (snd (Debounce.call st)) = Debounce.refreshed (snd st).
Proof.
  destruct st as [[d t] [n k ts r]]. unfold Debounce.at_most_own_timer. simpl.
  intros [-> | (i & due & -> & ->)].
  - destruct t; simpl; repeat split; reflexivity.
  - simpl. rewrite Nat.eqb_refl. simpl. repeat split; reflexivity.
Qed.

Lemma elapse_single (n k i due r ms : nat) :
  Debounce.elapse ms (Debounce.mkHost n k [Debounce.mkTimer i due] r) =
  if Nat.leb due (n + ms)
  then Debounce.mkHost (n + ms) k [] (S r)
  else Debounce.mkHost (n + ms) k [Debounce.mkTimer i due] r.
Proof.
  unfold Debounce.elapse. simpl. destruct (Nat.leb due (n + ms)); reflexivity.
Qed.

Lemma step_keeps_own_timer (st : Debounce.Debounced * Debounce.Host) (ev : Debounce.Event) :
  Debounce.at_most_own_timer st -> Debounce.at_most_own_timer (Debounce.step st ev).
Proof.
  intros H. destruct ev as [| ms].
  - destruct (call_own_timer st H) as (Ht & Hto & _).
    right. simpl. eauto.
  - destruct st as [d [n k ts r]]. destruct H as [H | (i & due & H & Hto)];
      simpl in H; subst ts.
    + left. reflexivity.
    + simpl. rewrite elapse_single. destruct (Nat.leb due (n + ms)).
      * left. reflexivity.
      * right. exists i, due. split; [reflexivity | exact Hto].
Qed.

Lemma run_keeps_own_timer (evs : list Debounce.Event) (st : Debounce.Debounced * Debounce.Host) :
  Debounce.at_most_own_timer st -> Debounce.at_most_own_timer (Debounce.run evs st).
Proof.
  revert st. induction evs as [| ev evs IH]; intros st H; simpl.
  - exact H.
  - apply IH. apply step_keeps_own_timer. exact H.
Qed.

(** X7. However the event fires and time passes, the debounced refresh
    never has more than one timer queued, and a queued timer is the one its
    variable [timeout] holds. *)
Theorem debounce_at_most_one_timer
    (d : option nat) (t : nat) (evs : list Debounce.Event) :
  let st := Debounce.run evs (Debounce.createDebouncedRefresh d, Debounce.idle t) in
  (List.length (Debounce.timers (snd st)) <= 1)%nat /\
  forall tm, In tm (Debounce.timers (snd st)) ->
             Debounce.timeout (fst st) = Some (Debounce.timer_id tm).
Proof.
  intros st.
  assert (H : Debounce.at_most_own_timer st).
  { apply run_keeps_own_timer. left. reflexivity. }
  destruct H as [H | (i & due & H & Hto)]; rewrite H; simpl.
  - split; [apply Nat.le_0_l | intros tm []].
  - split; [apply Nat.le_refl |].
    intros tm [<- | []]. exact Hto.
Qed.

Lemma armed_own_timer (st : Debounce.Debounced * Debounce.Host) :
  Debounce.armed st -> Debounce.at_most_own_timer st.
Proof. intros (i & H & Hto). right. eauto. Qed.

Lemma call_arms (st : Debounce.Debounced * Debounce.Host) :
  Debounce.at_most_own_timer st ->
  Debounce.armed (Debounce.call st) /\
  Debounce.delay (fst (Debounce.call st)) = Debounce.delay (fst st) /\
  Debounce.refreshed (snd (Debounce.call st)) = Debounce.refreshed (snd st).
Proof.
  intros H. destruct (call_own_timer st H) as (Ht & Hto & Hd & Hn & Hr).
  split; [| split; assumption].
  exists (Debounce.next_id (snd st)). rewrite Ht, Hd, Hn. split; [reflexivity | exact Hto].
Qed.

Lemma elapse_short (st : Debounce.Debounced * Debounce.Host) (ms : nat) :
  Debounce.armed st -> (ms < Debounce.delay (fst st))%nat ->
  Debounce.at_most_own_timer (Debounce.step st (Debounce.Elapse ms)) /\
  Debounce.timers (snd (Debounce.step st (Debounce.Elapse ms))) = Debounce.timers (snd st) /\
  Debounce.refreshed (snd (Debounce.step st (Debounce.Elapse ms))) =
    Debounce.refreshed (snd st).
Proof.
  destruct st as [d [n k ts r]]. intros (i & H & Hto) Hms. simpl in *. subst ts.
  rewrite elapse_single.
  assert (E : Nat.leb (n + Debounce.delay d) (n + ms) = false)
    by (apply Nat.leb_gt; lia).
  rewrite E. simpl. split; [| split; reflexivity].
  right. exists i, (n + Debounce.delay d)%nat. split; [reflexivity | exact Hto].
Qed.

Lemma elapse_long (st : Debounce.Debounced * Debounce.Host) (ms : nat) :
  Debounce.armed st -> (Debounce.delay (fst st) <= ms)%nat ->
  Debounce.timers (snd (Debounce.step st (Debounce.Elapse ms))) = [] /\
  Debounce.refreshed (snd (Debounce.step st (Debounce.Elapse ms))) =
    S (Debounce.refreshed (snd st)).
Proof.
  destruct st as [d [n k ts r]]. intros (i & H & Hto) Hms. simpl in *. subst ts.
  rewrite elapse_single.
  assert (E : Nat.leb (n + Debounce.delay d) (n + ms) = true)
    by (apply Nat.leb_le; lia).
  rewrite E. simpl. split; reflexivity.
Qed.

Lemma burst_tail_stays_armed (gaps : list nat) :
  forall st : Debounce.Debounced * Debounce.Host,
  Debounce.armed st ->
  Forall (fun g => (g < Debounce.delay (fst st))%nat) gaps ->
  Debounce.armed
    (Debounce.run (flat_map (fun g => [Debounce.Elapse g; Debounce.Fire]) gaps) st) /\
  Debounce.delay
    (fst (Debounce.run (flat_map (fun g => [Debounce.Elapse g; Debounce.Fire]) gaps) st))
    = Debounce.delay (fst st) /\
  Debounce.refreshed
    (snd (Debounce.run (flat_map (fun g => [Debounce.Elapse g; Debounce.Fire]) gaps) st))
    = Debounce.refreshed (snd st).
Proof.
  induction gaps as [| g gaps IH]; intros st Ha Hg.
  - split; [exact Ha | split; reflexivity].
  - inversion Hg as [| g' gaps' Hlt Hrest]; subst.
    change (Debounce.run
              (flat_map (fun g => [Debounce.Elapse g; Debounce.Fire]) (g :: gaps)) st)
      with (Debounce.run
              (flat_map (fun g => [Debounce.Elapse g; Debounce.Fire]) gaps)
              (Debounce.call (Debounce.step st (Debounce.Elapse g)))).
    destruct (elapse_short st g Ha Hlt) as (Hown & _ & Hr1).
    destruct (call_arms _ Hown) as (Ha2 & Hd2 & Hr2).
    assert (Hd1 : Debounce.delay (fst (Debounce.step st (Debounce.Elapse g)))
                  = Debounce.delay (fst st)) by reflexivity.
    set (st2 := Debounce.call (Debounce.step st (Debounce.Elapse g))) in *.
    assert (Hrest2 : Forall (fun g => (g < Debounce.delay (fst st2))%nat) gaps)
      by (rewrite Hd2, Hd1; exact Hrest).
    destruct (IH st2 Ha2 Hrest2) as (Ha3 & Hd3 & Hr3).
    split; [exact Ha3 |]. split.
    + rewrite Hd3, Hd2. exact Hd1.
    + rewrite Hr3, Hr2. exact Hr1.
Qed.

(** X8. Events fired in a row, each less than the delay after the one
    before, followed by a quiet time of at least the delay, give exactly one
    refresh, and leave no timer queued. *)
Theorem debounce_burst_refreshes_once
    (d : option nat) (t : nat) (gaps : list nat) (ms : nat) :
  let fn := Debounce.createDebouncedRefresh d in
  Forall (fun g => (g < Debounce.delay fn)%nat) gaps ->
  (Debounce.delay fn <= ms)%nat ->
  let st := Debounce.run (Debounce.burst gaps ++ [Debounce.Elapse ms])
                         (fn, Debounce.idle t) in
  Debounce.refreshed (snd st) = 1%nat /\ Debounce.timers (snd st) = [].
Proof.
  intros fn Hg Hms st. subst st. unfold Debounce.run, Debounce.burst.
  rewrite fold_left_app. cbn [fold_left].
  assert (H0 : Debounce.at_most_own_timer (fn, Debounce.idle t)) by (left; reflexivity).
  destruct (call_arms _ H0) as (Ha & Hd & Hr).
  cbn [Debounce.step].
  assert (Hg' : Forall (fun g => (g < Debounce.delay (fst (Debounce.call (fn, Debounce.idle t))))%nat) gaps)
    by (rewrite Hd; exact Hg).
  destruct (burst_tail_stays_armed gaps _ Ha Hg') as (Ha2 & Hd2 & Hr2).
  unfold Debounce.run in *.
  set (st2 := fold_left Debounce.step
                (flat_map (fun g => [Debounce.Elapse g; Debounce.Fire]) gaps)
                (Debounce.call (fn, Debounce.idle t))) in *.
  assert (Hms2 : (Debounce.delay (fst st2) <= ms)%nat) by (rewrite Hd2, Hd; exact Hms).
  destruct (elapse_long st2 ms Ha2 Hms2) as (Ht & Hr3).
  cbn [Debounce.step] in Ht, Hr3.
  split; [| exact Ht].
  rewrite Hr3, Hr2, Hr. reflexivity.
Qed.

Lemma debounce_burst_refreshes_once_witness :
  let fn := Debounce.createDebouncedRefresh (Some 300%nat) in
  Forall (fun g => (g < Debounce.delay fn)%nat) [100%nat; 299%nat] /\
  (Debounce.delay fn <= 300)%nat /\
  let st := Debounce.run (Debounce.burst [100%nat; 299%nat] ++ [Debounce.Elapse 300])
                         (fn, Debounce.idle 0) in
  Debounce.refreshed (snd st) = 1%nat /\ Debounce.timers (snd st) = [].
Proof.
  intros fn.
  assert (Hg : Forall (fun g => (g < Debounce.delay fn)%nat) [100%nat; 299%nat]).
  { repeat constructor; apply Nat.ltb_lt; reflexivity. }
  assert (Hms : (Debounce.delay fn <= 300)%nat) by (apply Nat.leb_le; reflexivity).
  split; [exact Hg |]. split; [exact Hms |].
  exact (debounce_burst_refreshes_once (Some 300%nat) 0 [100%nat; 299%nat] 300 Hg Hms).
Defined.

Lemma step_refresh_budget (st : Debounce.Debounced * Debounce.Host) (ev : Debounce.Event) :
  Debounce.at_most_own_timer st ->
  (Debounce.refreshed (snd (Debounce.step st ev)) +
   List.length (Debounce.timers (snd (Debounce.step st ev)))
   <= Debounce.refreshed (snd st) + List.length (Debounce.timers (snd st)) +
      Debounce.fires [ev])%nat.
Proof.
  intros H. destruct ev as [| ms].
  - destruct (call_own_timer st H) as (Ht & _ & _ & _ & Hr).
    cbn [Debounce.step]. rewrite Ht, Hr. unfold Debounce.fires. simpl. lia.
  - destruct st as [d [n k ts r]]. destruct H as [H | (i & due & H & Hto)];
      simpl in H; subst ts.
    + unfold Debounce.fires. simpl. lia.
    + cbn [Debounce.step fst snd]. rewrite elapse_single.
      unfold Debounce.fires. destruct (Nat.leb due (n + ms)); simpl; lia.
Qed.

Lemma run_refresh_budget (evs : list Debounce.Event) (st : Debounce.Debounced * Debounce.Host) :
  Debounce.at_most_own_timer st ->
  (Debounce.refreshed (snd (Debounce.run evs st)) +
   List.length (Debounce.timers (snd (Debounce.run evs st)))
   <= Debounce.refreshed (snd st) + List.length (Debounce.timers (snd st)) +
      Debounce.fires evs)%nat.
Proof.
  revert st. induction evs as [| ev evs IH]; intros st H.
  - simpl. unfold Debounce.fires. simpl. lia.
  - change (Debounce.run (ev :: evs) st) with (Debounce.run evs (Debounce.step st ev)).
    pose proof (IH _ (step_keeps_own_timer st ev H)) as H1.
    pose proof (step_refresh_budget st ev H) as H2.
    assert (Hf : Debounce.fires (ev :: evs) = (Debounce.fires [ev] + Debounce.fires evs)%nat).
    { unfold Debounce.fires. destruct ev; reflexivity. }
    lia.
Qed.

(** X9. The refresh never runs more often than the event fired: the runs
    so far, plus the timer still queued, are at most the number of events. *)
Theorem debounce_never_refreshes_more_than_fired
    (d : option nat) (t : nat) (evs : list Debounce.Event) :
  let st := Debounce.run evs (Debounce.createDebouncedRefresh d, Debounce.idle t) in
  (Debounce.refreshed (snd st) + List.length (Debounce.timers (snd st))
   <= Debounce.fires evs)%nat.
Proof.
  intros st. subst st.
  pose proof (run_refresh_budget evs (Debounce.createDebouncedRefresh d, Debounce.idle t)) as H.
  simpl in H. apply H. left. reflexivity.
Qed.

Lemma run_keeps_delay (evs : list Debounce.Event) :
  forall st : Debounce.Debounced * Debounce.Host,
  Debounce.delay (fst (Debounce.run evs st)) = Debounce.delay (fst st).
Proof.
  induction evs as [| ev evs IH]; intros st; [reflexivity |].
  change (Debounce.run (ev :: evs) st) with (Debounce.run evs (Debounce.step st ev)).
  rewrite IH. destruct st as [d h], ev as [| ms]; reflexivity.
Qed.

(** X10. After the event fires, no refresh runs before the delay has
    passed: whatever happened before, a fire followed by less than the delay
    of quiet adds no refresh and leaves the timer queued. *)
Theorem debounce_waits_for_the_delay
    (d : option nat) (t : nat) (evs : list Debounce.Event) (ms : nat) :
  let fn := Debounce.createDebouncedRefresh d in
  (ms < Debounce.delay fn)%nat ->
  let st := Debounce.run evs (fn, Debounce.idle t) in
  let st' := Debounce.run [Debounce.Fire; Debounce.Elapse ms] st in
  Debounce.refreshed (snd st') = Debounce.refreshed (snd st) /\
  List.length (Debounce.timers (snd st')) = 1%nat.
Proof.
  intros fn Hms st st'. subst st'. cbn [Debounce.run fold_left].
  assert (Hown : Debounce.at_most_own_timer st).
  { apply run_keeps_own_timer. left. reflexivity. }
  assert (Hd : Debounce.delay (fst st) = Debounce.delay fn)
    by (subst st; apply run_keeps_delay).
  destruct (call_arms st Hown) as (Ha & Hd2 & Hr).
  cbn [Debounce.step].
  assert (Hms2 : (ms < Debounce.delay (fst (Debounce.call st)))%nat)
    by (rewrite Hd2, Hd; exact Hms).
  destruct (elapse_short _ ms Ha Hms2) as (_ & Ht & Hr2).
  cbn [Debounce.step] in Ht, Hr2.
  split.
  - rewrite Hr2. exact Hr.
  - rewrite Ht. destruct Ha as (i & Hts & _). rewrite Hts. reflexivity.
Qed.

Lemma debounce_waits_for_the_delay_witness :
  let fn := Debounce.createDebouncedRefresh None in
  (299 < Debounce.delay fn)%nat /\
  let st := Debounce.run [Debounce.Fire; Debounce.Elapse 1000] (fn, Debounce.idle 0) in
  let st' := Debounce.run [Debounce.Fire; Debounce.Elapse 299] st in
  Debounce.refreshed (snd st') = Debounce.refreshed (snd st) /\
  List.length (Debounce.timers (snd st')) = 1%nat.
Proof.
  intros fn.
  assert (Hms : (299 < Debounce.delay fn)%nat) by (apply Nat.ltb_lt; reflexivity).
  split; [exact Hms |].
  exact (debounce_waits_for_the_delay None 0
           [Debounce.Fire; Debounce.Elapse 1000] 299 Hms).
Defined.

(** * Capturing poses *)

Lemma pow10_pos (digits : nat) : 0 < InitViewer.pow10 digits.
Proof.
  unfold InitViewer.pow10.
  change 0 with (inject_Z 0). rewrite <- Zlt_Qlt.
  apply Z.pow_pos_nonneg; lia.
Qed.


Lemma round_to_nearest (u : Q) :
  - (1 # 2) <= inject_Z (Qfloor (u + (1 # 2))) - u /\
  inject_Z (Qfloor (u + (1 # 2))) - u <= 1 # 2.
Proof.
  pose proof (Qfloor_le (u + (1 # 2))) as H1.
  pose proof (Qlt_floor (u + (1 # 2))) as H2.
  rewrite inject_Z_plus in H2. change (inject_Z 1) with 1 in H2.
  split; lra.
Qed.

Lemma scaled_error (n v P : Q) :
  0 < P -> - (1 # 2) <= n - v * P -> n - v * P <= 1 # 2 ->
  Qabs (n / P - v) <= (1 # 2) / P.
Proof.
  intros HP H1 H2.
  assert (E : n / P - v == (n - v * P) / P) by (field; lra).
  rewrite E. apply Qabs_Qle_condition. split.
  - apply Qle_shift_div_l; [exact HP |].
    assert (E2 : - ((1 # 2) / P) * P == - (1 # 2)) by (field; lra).
    rewrite E2. exact H1.
  - apply Qle_shift_div_r; [exact HP |].
    assert (E2 : (1 # 2) / P * P == 1 # 2) by (field; lra).
    rewrite E2. exact H2.
Qed.

(** X11. A captured number is within half a unit of the last printed
    decimal of the number it was read from: [parseFloat(v.toFixed(d))]
    differs from [v] by at most (1/2) * 10^(-d). *)
Theorem toFixed_error (digits : nat) (v : Q) :
  Qabs (InitViewer.toFixed digits v - v) <= (1 # 2) / InitViewer.pow10 digits.
Proof.
  pose proof (pow10_pos digits) as HP.
  unfold InitViewer.toFixed.
  destruct (Qle_bool (inject_Z (10 ^ 21)) (Qabs v)).
  - assert (E : v - v == 0) by ring. rewrite E. simpl.
    apply Qlt_le_weak. apply Qlt_shift_div_l; [exact HP | lra].
  - destruct (Qle_bool 0 v) eqn:E0.
    + destruct (round_to_nearest (v * InitViewer.pow10 digits)) as [H1 H2].
      apply scaled_error; assumption.
    + destruct (round_to_nearest (- v * InitViewer.pow10 digits)) as [H1 H2].
      assert (E : - (inject_Z (Qfloor (- v * InitViewer.pow10 digits + (1 # 2)))
                     / InitViewer.pow10 digits) - v
                  == - (inject_Z (Qfloor (- v * InitViewer.pow10 digits + (1 # 2)))
                        / InitViewer.pow10 digits - - v)) by ring.
      rewrite E, Qabs_opp.
      apply scaled_error; assumption.
Qed.





(** X13. With the controls disabled, a captured target is not the target
    of the pose applied: [capturePose] reads [controls.target], which
    [applyPose] leaves alone in that mode. *)
Theorem capturePose_target_when_locked (pose : option Pose) (w : World) :
  controls_enabled w = false ->
  target (InitViewer.capturePose (applyPose (Some applyTarget) pose w)) =
  target (InitViewer.capturePose w).
Proof.
  intros He. destruct pose as [[rp rr c t v] |]; [| reflexivity].
  destruct w as [wrp wrr wcp wcf wcpj wca wce wct wtp wcl]. simpl in He. subst wce.
  destruct c, v; reflexivity.
Qed.

Lemma capturePose_target_when_locked_witness :
  controls_enabled initial_world = false /\
  target (InitViewer.capturePose
            (applyPose (Some applyTarget) (Some START_pose) initial_world)) =
  target (InitViewer.capturePose initial_world).
Proof.
  split; [reflexivity |].
  apply (capturePose_target_when_locked (Some START_pose) initial_world).
  reflexivity.
Defined.

(** * The keyboard controls *)

Lemma filter_ground_map_visible (on : bool) (cs : list InitViewer.Child) :
  filter InitViewer.is_ground
    (map (fun c => if InitViewer.is_light c then InitViewer.set_visible on c else c) cs)
  = filter InitViewer.is_ground cs.
Proof.
  induction cs as [| [i k b] cs IH]; [reflexivity |].
  destruct k; simpl; rewrite IH; reflexivity.
Qed.

Lemma filter_ground_app (a b : list InitViewer.Child) :
  filter InitViewer.is_ground (a ++ b) =
  filter InitViewer.is_ground a ++ filter InitViewer.is_ground b.
Proof. apply filter_app. Qed.

Lemma scene_remove_only_ground (id : nat) (cs : list InitViewer.Child) :
  filter InitViewer.is_ground cs = [InitViewer.mkChild id InitViewer.GroundPlane true] ->
  filter InitViewer.is_ground (InitViewer.scene_remove id cs) = [].
Proof.
  unfold InitViewer.scene_remove.
  induction cs as [| [i k b] cs IH]; intros H; [discriminate |].
  destruct k; simpl in *.
  - destruct (Nat.eqb i id); simpl; apply IH; exact H.
  - injection H as -> -> H. rewrite Nat.eqb_refl. simpl.
    clear IH. induction cs as [| [j k' b'] cs IH]; [reflexivity |].
    destruct k'; simpl in *; try discriminate;
      destruct (Nat.eqb j id); simpl; apply IH; exact H.
  - destruct (Nat.eqb i id); simpl; apply IH; exact H.
Qed.

Lemma keydown_ground (key : string) (v : InitViewer.Viewer) :
  InitViewer.ground_consistent v ->
  InitViewer.ground_consistent (InitViewer.keydown key v) /\
  InitViewer.groundVisible (InitViewer.keydown key v) =
    (if String.eqb "g" key then negb (InitViewer.groundVisible v)
     else InitViewer.groundVisible v).
Proof.
  intros H. unfold InitViewer.keydown.
  rewrite (String.eqb_sym "g" key).
  destruct (String.eqb key "o") eqn:Eo.
  { apply String.eqb_eq in Eo. subst key. split; [exact H | reflexivity]. }
  destruct (String.eqb key "p") eqn:Ep.
  { apply String.eqb_eq in Ep. subst key. split; [exact H | reflexivity]. }
  destruct (String.eqb key "1") eqn:E1.
  { apply String.eqb_eq in E1. subst key.
    destruct (InitViewer.helpers v); split; (exact H || reflexivity). }
  destruct (String.eqb key "2") eqn:E2.
  { apply String.eqb_eq in E2. subst key.
    destruct (InitViewer.helpers v); split; (exact H || reflexivity). }
  destruct (String.eqb key "l") eqn:El.
  { apply String.eqb_eq in El. subst key. split; [| reflexivity].
    unfold InitViewer.ground_consistent, InitViewer.ground_planes in *. simpl.
    rewrite filter_ground_map_visible. exact H. }
  destruct (String.eqb key "b") eqn:Eb.
  { apply String.eqb_eq in Eb. subst key. split; [exact H | reflexivity]. }
  destruct (String.eqb key "g") eqn:Eg; [| split; [exact H | reflexivity]].
  unfold InitViewer.ground_consistent, InitViewer.ground_planes in *.
  destruct (InitViewer.groundVisible v).
  - destruct H as (id & Hp & Hg). rewrite Hp. simpl. split; [| reflexivity].
    split; [reflexivity |]. apply scene_remove_only_ground. exact Hg.
  - destruct H as (Hp & Hg). simpl. split; [| reflexivity].
    exists (InitViewer.next_child v). split; [reflexivity |].
    rewrite filter_ground_app, Hg. reflexivity.
Qed.

Lemma presses_cons (key k : string) (ks : list string) :
  InitViewer.presses key (k :: ks) =
  if String.eqb key k then S (InitViewer.presses key ks)
  else InitViewer.presses key ks.
Proof.
  unfold InitViewer.presses. cbn [filter].
  destruct (String.eqb key k); reflexivity.
Qed.

Lemma keys_ground (ks : list string) :
  forall v : InitViewer.Viewer,
  InitViewer.ground_consistent v ->
  InitViewer.ground_consistent (InitViewer.keys ks v) /\
  InitViewer.groundVisible (InitViewer.keys ks v) =
    xorb (Nat.odd (InitViewer.presses "g" ks)) (InitViewer.groundVisible v).
Proof.
  induction ks as [| k ks IH]; intros v H.
  - split; [exact H |]. simpl. reflexivity.
  - change (InitViewer.keys (k :: ks) v)
      with (InitViewer.keys ks (InitViewer.keydown k v)).
    destruct (keydown_ground k v H) as (H1 & Hv).
    destruct (IH _ H1) as (H2 & Hv2).
    split; [exact H2 |]. rewrite Hv2, Hv, presses_cons.
    destruct (String.eqb "g" k).
    + rewrite Nat.odd_succ, <- Nat.negb_odd.
      destruct (Nat.odd _), (InitViewer.groundVisible v); reflexivity.
    + reflexivity.
Qed.

(** X14. Whatever keys are pressed, the ground toggle stays in step with
    the scene: the scene holds one ground plane, the one the handler
    remembers, exactly when G was pressed an odd number of times, and none
    otherwise. *)
Theorem ground_toggle_consistent
    (w : World) (cs : list InitViewer.Child) (fresh : nat) (ks : list string) :
  filter InitViewer.is_ground cs = [] ->
  let v := InitViewer.keys ks (InitViewer.viewer_of w cs fresh) in
  InitViewer.groundVisible v = Nat.odd (InitViewer.presses "g" ks) /\
  if Nat.odd (InitViewer.presses "g" ks)
  then exists id,
         InitViewer.groundPlane v = Some id /\
         InitViewer.ground_planes v = [InitViewer.mkChild id InitViewer.GroundPlane true]
  else InitViewer.groundPlane v = None /\ InitViewer.ground_planes v = [].
Proof.
  intros Hcs v.
  assert (H0 : InitViewer.ground_consistent (InitViewer.viewer_of w cs fresh)).
  { unfold InitViewer.ground_consistent, InitViewer.ground_planes. simpl.
    split; [reflexivity | exact Hcs]. }
  destruct (keys_ground ks _ H0) as (H1 & Hv). fold v in H1, Hv.
  simpl in Hv. rewrite xorb_false_r in Hv.
  split; [exact Hv |].
  unfold InitViewer.ground_consistent in H1. rewrite Hv in H1. exact H1.
Qed.

Lemma ground_toggle_consistent_witness :
  let cs := [InitViewer.mkChild 0 InitViewer.OtherObject true;
             InitViewer.mkChild 1 InitViewer.LightObject true] in
  filter InitViewer.is_ground cs = [] /\
  let v := InitViewer.keys ["g"; "l"; "g"; "o"; "g"]%string
             (InitViewer.viewer_of initial_world cs 2) in
  InitViewer.groundVisible v =
    Nat.odd (InitViewer.presses "g" ["g"; "l"; "g"; "o"; "g"]%string) /\
  if Nat.odd (InitViewer.presses "g" ["g"; "l"; "g"; "o"; "g"]%string)
  then exists id,
         InitViewer.groundPlane v = Some id /\
         InitViewer.ground_planes v = [InitViewer.mkChild id InitViewer.GroundPlane true]
  else InitViewer.groundPlane v = None /\ InitViewer.ground_planes v = [].
Proof.
  intros cs. split; [reflexivity |].
  apply (ground_toggle_consistent initial_world cs 2
           ["g"; "l"; "g"; "o"; "g"]%string).
  reflexivity.
Defined.

(** X15. Pressing B sets the background to black when it was white and to
    white in every other case, so two presses restore a white or a black
    background. *)
Theorem background_toggle (v : InitViewer.Viewer) :
  let v1 := InitViewer.keydown "b" v in
  let v2 := InitViewer.keydown "b" v1 in
  InitViewer.background v1 =
    (if match InitViewer.background v with
        | Some h => Z.eqb h InitViewer.bgColor
        | None => false
        end
     then Some 0%Z else Some InitViewer.bgColor) /\
  (InitViewer.background v2 = Some InitViewer.bgColor \/
   InitViewer.background v2 = Some 0%Z) /\
  (InitViewer.background v = Some InitViewer.bgColor \/
   InitViewer.background v = Some 0%Z ->
   InitViewer.background v2 = InitViewer.background v).
Proof.
  destruct v as [w cs [h |] lv gv gp nc hp pr]; cbn.
  - destruct (Z.eqb h InitViewer.bgColor) eqn:E; cbn.
    + apply Z.eqb_eq in E. subst h. repeat split; auto.
    + repeat split; auto. intros [H | H]; inversion H; subst.
      * rewrite Z.eqb_refl in E. discriminate.
      * reflexivity.
  - repeat split; auto. intros [H | H]; discriminate H.
Qed.

(** X16. Pressing L gives every light among the scene's children the
    visibility the handler announces, the opposite of its flag before, and
    leaves the other children, and the order of all, as they were. *)
Theorem lights_toggle (v : InitViewer.Viewer) :
  let v' := InitViewer.keydown "l" v in
  InitViewer.lightsVisible v' = negb (InitViewer.lightsVisible v) /\
  Forall (fun c => InitViewer.is_light c = true ->
                   InitViewer.visible c = InitViewer.lightsVisible v')
         (InitViewer.children v') /\
  map InitViewer.child_id (InitViewer.children v') =
    map InitViewer.child_id (InitViewer.children v) /\
  filter (fun c => negb (InitViewer.is_light c)) (InitViewer.children v') =
    filter (fun c => negb (InitViewer.is_light c)) (InitViewer.children v).
Proof.
  destruct v as [w cs bg lv gv gp nc hp pr]. cbn.
  split; [reflexivity |].
  induction cs as [| [i k b] cs (IH1 & IH2 & IH3)].
  - repeat split. constructor.
  - destruct k; cbn; (split; [constructor; [cbn; congruence | exact IH1] |]);
      (split; [f_equal; exact IH2 |]); try (f_equal; exact IH3); exact IH3.
Qed.

(** X17. Only the keys O, 1 and 2 touch the camera: any other key leaves
    the camera rig, the camera, the controls and the target as they were;
    and before main.js has installed its pose helpers, so do 1 and 2. *)
Theorem keydown_camera_untouched (key : string) (v : InitViewer.Viewer) :
  key <> "o"%string ->
  (key = "1"%string \/ key = "2"%string -> InitViewer.helpers v = false) ->
  InitViewer.world (InitViewer.keydown key v) = InitViewer.world v.
Proof.
  intros Ho Hh. unfold InitViewer.keydown.
  destruct (String.eqb key "o") eqn:Eo.
  { apply String.eqb_eq in Eo. contradiction. }
  destruct (String.eqb key "p"); [reflexivity |].
  destruct (String.eqb key "1") eqn:E1.
  { apply String.eqb_eq in E1. rewrite (Hh (or_introl E1)). reflexivity. }
  destruct (String.eqb key "2") eqn:E2.
  { apply String.eqb_eq in E2. rewrite (Hh (or_intror E2)). reflexivity. }
  destruct (String.eqb key "l"); [reflexivity |].
  destruct (String.eqb key "b"); [reflexivity |].
  destruct (String.eqb key "g"); [| reflexivity].
  destruct (InitViewer.groundVisible v), (InitViewer.groundPlane v); reflexivity.
Qed.

Lemma keydown_camera_untouched_witness :
  "g"%string <> "o"%string /\
  ("g"%string = "1"%string \/ "g"%string = "2"%string ->
   InitViewer.helpers (InitViewer.viewer_of initial_world [] 0) = false) /\
  InitViewer.world (InitViewer.keydown "g" (InitViewer.viewer_of initial_world [] 0))
    = InitViewer.world (InitViewer.viewer_of initial_world [] 0).
Proof.
  assert (Ho : "g"%string <> "o"%string) by discriminate.
  assert (Hh : "g"%string = "1"%string \/ "g"%string = "2"%string ->
               InitViewer.helpers (InitViewer.viewer_of initial_world [] 0) = false)
    by (intros [H | H]; discriminate H).
  split; [exact Ho |]. split; [exact Hh |].
  exact (keydown_camera_untouched "g" (InitViewer.viewer_of initial_world [] 0) Ho Hh).
Defined.

(** * Lighting *)

(** X18. [applyHDRI] never throws.  It returns the HDRI map when the file
    loads and converts, else the RoomEnvironment map when that can be built,
    else null; with a map, the scene's environment is that map and the
    exposure is the intensity asked for (1.3 by default); with null, the
    environment and the renderer are untouched.  Only the HDRI map is given
    the rotation, and only when it is not zero. *)
Theorem applyHDRI_outcome (h : Lighting.Host) (opts : Lighting.Opts) (s : Lighting.Stage) :
  exists r s',
    Lighting.applyHDRI h opts s = Lighting.Ok r s' /\
    option_map Lighting.env_source r = Lighting.built h /\
    Lighting.status s' = Lighting.status s /\
    match r with
    | Some m =>
        Lighting.environment s' = Some m /\
        Lighting.toneMappingExposure (Lighting.renderer s') ==
          match Lighting.intensity opts with Some v => v | None => 1.3 end /\
        (Lighting.env_rotation m <> None ->
         Lighting.env_source m = Lighting.HDRI /\
         exists v, Lighting.rotationY opts = Some v /\ ~ v == 0 /\
                   Lighting.env_rotation m = Some v)
    | None =>
        Lighting.environment s' = Lighting.environment s /\
        Lighting.renderer s' = Lighting.renderer s
    end.
Proof.
  destruct h as [a b c d], opts as [i r], s as [rd env st ls].
  unfold Lighting.applyHDRI, Lighting.built. cbn.
  destruct a, b; cbn.
  1: { eexists. eexists. split; [reflexivity |]. split; [reflexivity |].
       split; [reflexivity |]. cbn. split; [reflexivity |]. split; [reflexivity |].
       destruct r as [v |]; cbn.
       - destruct (Qeq_bool v 0) eqn:E; cbn; intros Hr; [contradiction |].
         split; [reflexivity |]. exists v. split; [reflexivity |].
         split; [| reflexivity]. intros Hv. apply Qeq_bool_iff in Hv. congruence.
       - intros Hr. contradiction. }
  all: destruct c, d; cbn; eexists; eexists; (split; [reflexivity |]);
    (split; [reflexivity |]); (split; [reflexivity |]); cbn;
    try (split; reflexivity);
    (split; [reflexivity |]); (split; [reflexivity |]); intros Hr; contradiction.
Qed.

(** X19. The lighting step of [init] never reaches its [catch]: the status
    overlay ends on "HDRI loaded" whatever was built, also when the HDRI file
    did not load and when no environment could be built at all; and after
    [configureRenderer] the exposure is 1.3 with an environment and stays 1.2
    without. *)
Theorem init_lighting_status (h : Lighting.Host) (s : Lighting.Stage) :
  exists s',
    Lighting.init_lighting h (Lighting.configureRenderer s) = Lighting.Ok tt s' /\
    Lighting.status s' = Lighting.HDRILoaded /\
    (In Lighting.HdriNotAvailableWarn (Lighting.lines s') ->
     In Lighting.HdriNotAvailableWarn (Lighting.lines s)) /\
    option_map Lighting.env_source (Lighting.environment s') =
      match Lighting.built h with
      | Some src => Some src
      | None => option_map Lighting.env_source (Lighting.environment s)
      end /\
    Lighting.toneMappingExposure (Lighting.renderer s') ==
      match Lighting.built h with Some _ => 1.3 | None => 1.2 end.
Proof.
  destruct h as [a b c d], s as [rd env st ls].
  unfold Lighting.init_lighting, Lighting.applyHDRI, Lighting.built.
  destruct a, b, c, d; cbn; eexists; (split; [reflexivity |]);
    (split; [reflexivity |]); cbn;
    (split; [| split; reflexivity]);
    rewrite ?in_app_iff; cbn; intros H;
    repeat match goal with
           | H : _ \/ _ |- _ => destruct H as [H | H]
           | H : False |- _ => contradiction
           | H : _ = Lighting.HdriNotAvailableWarn |- _ => discriminate H
           end; assumption.
Qed.

(** * Loading the model *)

Lemma Qlt_bool_true (a b : Q) : LoadModel.Qlt_bool a b = true <-> a < b.
Proof.
  unfold LoadModel.Qlt_bool. rewrite negb_true_iff.
  split; intros H.
  - apply Qnot_le_lt. intros Hle. apply Qle_bool_iff in Hle. congruence.
  - destruct (Qle_bool b a) eqn:E; [| reflexivity].
    apply Qle_bool_iff in E. lra.
Qed.

Lemma Qlt_bool_false (a b : Q) : LoadModel.Qlt_bool a b = false <-> b <= a.
Proof.
  unfold LoadModel.Qlt_bool. rewrite negb_false_iff. apply Qle_bool_iff.
Qed.

(** X20. For a model of positive size, the scaling step leaves the largest
    dimension between 0.02 and 2000: a model within these bounds keeps its
    scale, and any other is scaled so that its largest dimension is 3. *)
Theorem smartScale_bounds (size : Vec3) :
  0 < LoadModel.maxDim size ->
  exists k,
    LoadModel.factor (LoadModel.smartScale size) = Some k /\
    0.02 <= k * LoadModel.maxDim size /\
    k * LoadModel.maxDim size <= 2000 /\
    (LoadModel.smartScale size = LoadModel.Keep <->
     0.02 <= LoadModel.maxDim size /\ LoadModel.maxDim size <= 2000) /\
    (LoadModel.smartScale size <> LoadModel.Keep -> k * LoadModel.maxDim size == 3).
Proof.
  intros Hm. unfold LoadModel.smartScale.
  set (m := LoadModel.maxDim size) in *. clearbody m.
  destruct (LoadModel.Qlt_bool 1000 (m / 2)) eqn:E1;
    [| destruct (LoadModel.Qlt_bool (m / 2) 0.01) eqn:E2]; cbn [orb].
  - apply Qlt_bool_true in E1.
    unfold Qdiv in E1; change (/ 2) with (1 # 2) in E1.
    assert (E0 : Qeq_bool m 0 = false).
    { destruct (Qeq_bool m 0) eqn:E; [| reflexivity]. apply Qeq_bool_iff in E. lra. }
    rewrite E0. exists (3 / m).
    assert (Ek : 3 / m * m == 3) by (field; lra).
    split; [reflexivity |]. rewrite Ek. clear Ek.
    split; [lra |]. split; [lra |]. split; [| intros _; reflexivity].
    split; [discriminate | intros [H1 H2]; exfalso; lra].
  - apply Qlt_bool_true in E2.
    unfold Qdiv in E2; change (/ 2) with (1 # 2) in E2.
    assert (E0 : Qeq_bool m 0 = false).
    { destruct (Qeq_bool m 0) eqn:E; [| reflexivity]. apply Qeq_bool_iff in E. lra. }
    rewrite E0. exists (3 / m).
    assert (Ek : 3 / m * m == 3) by (field; lra).
    split; [reflexivity |]. rewrite Ek. clear Ek.
    split; [lra |]. split; [lra |]. split; [| intros _; reflexivity].
    split; [discriminate | intros [H1 H2]; exfalso; lra].
  - apply Qlt_bool_false in E1. apply Qlt_bool_false in E2.
    unfold Qdiv in E1, E2; change (/ 2) with (1 # 2) in E1, E2.
    exists 1. split; [reflexivity |].
    split; [lra |]. split; [lra |]. split; [| intros H; contradiction].
    split; [lra | reflexivity].
Qed.

Lemma smartScale_bounds_witness :
  0 < LoadModel.maxDim (vec3 4500 1800 1200) /\
  exists k,
    LoadModel.factor (LoadModel.smartScale (vec3 4500 1800 1200)) = Some k /\
    0.02 <= k * LoadModel.maxDim (vec3 4500 1800 1200) /\
    k * LoadModel.maxDim (vec3 4500 1800 1200) <= 2000 /\
    (LoadModel.smartScale (vec3 4500 1800 1200) = LoadModel.Keep <->
     0.02 <= LoadModel.maxDim (vec3 4500 1800 1200) /\
     LoadModel.maxDim (vec3 4500 1800 1200) <= 2000) /\
    (LoadModel.smartScale (vec3 4500 1800 1200) <> LoadModel.Keep ->
     k * LoadModel.maxDim (vec3 4500 1800 1200) == 3).
Proof.
  split; [reflexivity |].
  apply (smartScale_bounds (vec3 4500 1800 1200)). reflexivity.
Defined.

(** X21. A mesh with a material that is transparent, or whose opacity is a
    number below 1, is taken for glass, whatever the names of the mesh and
    of its materials. *)
Theorem detectGlass_transparent
    (toLowerCase : string -> string) (mesh : LoadModel.Mesh)
    (materials : list (option LoadModel.Material)) (m : LoadModel.Material) :
  In (Some m) materials ->
  LoadModel.transparent m = true \/
    (exists o, LoadModel.opacity m = Some o /\ o < 1) ->
  LoadModel.detectGlass toLowerCase mesh materials = true.
Proof.
  intros Hin Hm. unfold LoadModel.detectGlass.
  apply orb_true_iff. right. apply existsb_exists.
  exists (Some m). split; [exact Hin |].
  unfold LoadModel.materialMatches.
  destruct Hm as [Ht | (o & Ho & Hlt)].
  - rewrite Ht. rewrite orb_true_r. reflexivity.
  - rewrite Ho. apply Qlt_bool_true in Hlt. rewrite Hlt. apply orb_true_r.
Qed.

Lemma detectGlass_transparent_witness :
  let m := LoadModel.mkMaterial (Some "Paint"%string) false (Some 0.5) in
  let mesh := LoadModel.mkMesh (Some "Body"%string) (LoadModel.Single (Some m)) in
  In (Some m) [Some m] /\
  (LoadModel.transparent m = true \/
    (exists o, LoadModel.opacity m = Some o /\ o < 1)) /\
  LoadModel.detectGlass (fun s => s) mesh [Some m] = true.
Proof.
  intros m mesh.
  assert (Hin : In (Some m) [Some m]) by (left; reflexivity).
  assert (Hm : LoadModel.transparent m = true \/
               (exists o, LoadModel.opacity m = Some o /\ o < 1)).
  { right. exists 0.5. split; reflexivity. }
  split; [exact Hin |]. split; [exact Hm |].
  exact (detectGlass_transparent (fun s => s) mesh [Some m] m Hin Hm).
Defined.

Lemma prefix_longer_includes (p k : string) :
  forall s, String.prefix (p ++ k) s = true -> LoadModel.includes s k = true.
Proof.
  induction p as [| c p IH]; intros s H.
  - cbn [String.append] in H. destruct s; cbn [LoadModel.includes]; rewrite H; reflexivity.
  - destruct s as [| c' s]; simpl in H; [discriminate |].
    destruct (Ascii.ascii_dec c c'); [| discriminate].
    cbn [LoadModel.includes]. rewrite (IH s H). apply orb_true_r.
Qed.

Lemma includes_longer (p k : string) :
  forall s, LoadModel.includes s (p ++ k) = true -> LoadModel.includes s k = true.
Proof.
  induction s as [| c s IH]; intros H; cbn [LoadModel.includes] in H.
  - rewrite orb_false_r in H. exact (prefix_longer_includes p k _ H).
  - apply orb_true_iff in H. destruct H as [H | H].
    + exact (prefix_longer_includes p k _ H).
    + cbn [LoadModel.includes]. rewrite (IH H). apply orb_true_r.
Qed.

(** X22. Three of the eight glass keywords never decide: a name matches a
    keyword exactly when it contains glass, window, windshield, windscreen or
    the last keyword; rear_window, front_window and backglass add nothing. *)
Theorem glassKeywords_redundant (s : string) :
  LoadModel.matchesKeyword s =
  existsb (fun keyword => LoadModel.includes s keyword) LoadModel.decidingKeywords.
Proof.
  unfold LoadModel.matchesKeyword, LoadModel.glassKeywords, LoadModel.decidingKeywords.
  cbn [existsb].
  pose proof (includes_longer "rear_" "window" s) as Hr.
  pose proof (includes_longer "front_" "window" s) as Hf.
  pose proof (includes_longer "back" "glass" s) as Hb.
  cbn [String.append] in Hr, Hf, Hb.
  destruct (LoadModel.includes s "glass");
    destruct (LoadModel.includes s "window");
    destruct (LoadModel.includes s "windshield");
    destruct (LoadModel.includes s "windscreen");
    destruct (LoadModel.includes s "rear_window");
    destruct (LoadModel.includes s "front_window");
    destruct (LoadModel.includes s "backglass");
    destruct (LoadModel.includes s "透明");
    try reflexivity;
    try (specialize (Hr eq_refl); discriminate Hr);
    try (specialize (Hf eq_refl); discriminate Hf);
    try (specialize (Hb eq_refl); discriminate Hb).
Qed.
